(** * gastos-telegram-bot: the expense parser and the webhook handler

    A shallow embedding of [src/app.py].  The file follows the program:

    - Python [str] values and the string methods the program calls
      ([lower], [strip], [replace], [split], [join], slicing);
    - the fragment of [re] the two patterns of the program need, as a
      backtracking matcher, with [re.search] and [re.sub];
    - [float(...)] on decimal literals and the [.2f] format, over the
      binary64 numbers of [SpecFloat];
    - [parse_expense];
    - JSON values, the collaborators of the handler (Telegram, the
      speech-to-text model, the spreadsheet) as an environment of
      oracles, and [send_message], [add_row], [webhook] in a trace and
      exception monad.

    The definitions come first, the theorems after them. *)

From Stdlib Require Import String Ascii.
From Stdlib Require Import List NArith ZArith Bool Lia.
From Stdlib Require Import Floats.SpecFloat.
From Stdlib Require DecimalPos.
Import ListNotations.

Set Implicit Arguments.

(* ================================================================== *)
(** * Part I. Definitions                                              *)
(* ================================================================== *)

(** ** Python strings

    A [str] is a sequence of Unicode code points. *)

Definition cp := N.
Definition str := list cp.

(** String literals of the program, written as Rocq strings when they
    are ASCII. *)
Definition lit (s : string) : str :=
  map N_of_ascii (list_ascii_of_string s).

Definition str_eqb (a b : str) : bool :=
  if list_eq_dec N.eq_dec a b then true else false.

Definition isascii (c : cp) : bool := (c <? 128)%N.

(** [Py_UNICODE_ISSPACE]: the characters [str.strip], [str.split] and
    the pattern [\s] treat as whitespace. *)
Definition Py_UNICODE_ISSPACE (c : cp) : bool :=
  ((9 <=? c) && (c <=? 13) || (28 <=? c) && (c <=? 32)
   || (c =? 133) || (c =? 160) || (c =? 5760)
   || (8192 <=? c) && (c <=? 8202)
   || (c =? 8232) || (c =? 8233) || (c =? 8239) || (c =? 8287)
   || (c =? 12288))%N.

(** The Unicode character database of the interpreter beyond ASCII is
    not part of the repository; it is a parameter of the development.
    [uni_tolower] is [str.lower] on a string that is not pure ASCII (the
    mapping is context sensitive and may change the length);
    [uni_todecimal] is [Py_UNICODE_TODECIMAL] on a code point above 127
    (the digit value of a character of category Nd). *)
Class UnicodeData := {
  uni_tolower : str -> str;
  uni_todecimal : cp -> option N
}.

(** A database that knows the Latin-1 block only, for evaluation on
    concrete inputs: no decimal digit lies in 128..255, and the capital
    letters 192..222 (but the multiplication sign 215) have their small
    letter 32 places further. *)
Definition latin1_lower (c : cp) : cp :=
  if ((192 <=? c) && (c <=? 222) && negb (c =? 215))%N then (c + 32)%N
  else if ((65 <=? c) && (c <=? 90))%N then (c + 32)%N else c.

Definition latin1_data : UnicodeData := {|
  uni_tolower := fun s =>
    if forallb (fun c => (c <? 256)%N) s then map latin1_lower s else s;
  uni_todecimal := fun _ => None
|}.

Section Strings.
Context {ucd : UnicodeData}.

Definition ascii_lower (c : cp) : cp :=
  if ((65 <=? c) && (c <=? 90))%N then (c + 32)%N else c.

(** [str.lower()]: CPython lowers a pure ASCII string byte by byte and
    consults the Unicode database otherwise. *)
Definition lower (s : str) : str :=
  if forallb isascii s then map ascii_lower s else uni_tolower s.

(** Digit value of a decimal character, [None] for any other. *)
Definition todecimal (c : cp) : option N :=
  if isascii c
  then if ((48 <=? c) && (c <=? 57))%N then Some (c - 48)%N else None
  else uni_todecimal c.

(** The class [\d] of a [str] pattern: [Py_UNICODE_ISDECIMAL]. *)
Definition isdecimal (c : cp) : bool :=
  match todecimal c with Some _ => true | None => false end.

Definition isspace : cp -> bool := Py_UNICODE_ISSPACE.

Fixpoint lstrip (s : str) : str :=
  match s with
  | [] => []
  | c :: s' => if isspace c then lstrip s' else s
  end.

Definition rstrip (s : str) : str := rev (lstrip (rev s)).

(** [s.strip()] *)
Definition strip (s : str) : str := rstrip (lstrip s).

(** [s.startswith(p)] *)
Fixpoint startswith (p s : str) : bool :=
  match p, s with
  | [], _ => true
  | _ :: _, [] => false
  | a :: p', b :: s' => (a =? b)%N && startswith p' s'
  end.

(** [s.replace(old, new)] for a non-empty [old]: the occurrences are
    found from the left and do not overlap.  [skip] counts the
    characters of an occurrence still to be passed over. *)
Fixpoint replace_from (old new : str) (skip : nat) (s : str) : str :=
  match s with
  | [] => []
  | c :: s' =>
      match skip with
      | S k => replace_from old new k s'
      | O =>
          if startswith old s
          then new ++ replace_from old new (length old - 1) s'
          else c :: replace_from old new 0 s'
      end
  end.

(** With an empty [old], Python puts [new] before every character and
    at the end. *)
Definition replace (old new s : str) : str :=
  match old with
  | [] => new ++ flat_map (fun c => c :: new) s
  | _ :: _ => replace_from old new 0 s
  end.

(** [s.split()]: the maximal runs of characters that are not
    whitespace.  [cur] is the run being read, last character first. *)
Fixpoint split_from (cur : str) (s : str) : list str :=
  match s with
  | [] => match cur with [] => [] | _ :: _ => [rev cur] end
  | c :: s' =>
      if isspace c
      then match cur with
           | [] => split_from [] s'
           | _ :: _ => rev cur :: split_from [] s'
           end
      else split_from (c :: cur) s'
  end.

Definition split (s : str) : list str := split_from [] s.

(** [sep.join(parts)] *)
Fixpoint join (sep : str) (parts : list str) : str :=
  match parts with
  | [] => []
  | [p] => p
  | p :: ps => p ++ sep ++ join sep ps
  end.

(** [s[i:j]] for [0 <= i <= j] *)
Definition slice (s : str) (i j : nat) : str := firstn (j - i) (skipn i s).

End Strings.

(** ** Regular expressions

    The fragment of Python's [re] that the two patterns of the program
    use: character classes, concatenation, the greedy optional group
    [(?:r)?] and greedy bounded repetition of a class ([c+] is
    [c{1,}]). *)

Inductive regex :=
| Class (p : cp -> bool)
| Seq (r1 r2 : regex)
| Optional (r : regex)
| Repeat (p : cp -> bool) (lo : nat) (hi : option nat).

(** One more repetition is allowed under the upper bound [hi]. *)
Definition below (hi : option nat) : bool :=
  match hi with Some O => false | _ => true end.

(** Greedy repetition with backtracking: take one more character when
    that leads to a match of the rest of the pattern (the continuation
    [k]), stop here otherwise, if [lo] repetitions have been made. *)
Fixpoint repeat_greedy {A} (p : cp -> bool) (lo : nat) (hi : option nat)
    (s : str) (k : str -> option A) : option A :=
  let stop := match lo with O => k s | S _ => None end in
  match s with
  | [] => stop
  | c :: s' =>
      if p c && below hi
      then match repeat_greedy p (pred lo) (option_map pred hi) s' k with
           | Some x => Some x
           | None => stop
           end
      else stop
  end.

(** The backtracking matcher: match [r] at the head of [s], then run
    [k] on what is left; the alternatives are tried in the order of
    Python's engine and the first success is the answer. *)
Fixpoint match_here {A} (r : regex) (s : str) (k : str -> option A)
    : option A :=
  match r with
  | Class p =>
      match s with
      | c :: s' => if p c then k s' else None
      | [] => None
      end
  | Seq r1 r2 => match_here r1 s (fun s1 => match_here r2 s1 k)
  | Optional r1 =>
      match match_here r1 s k with
      | Some x => Some x
      | None => k s
      end
  | Repeat p lo hi => repeat_greedy p lo hi s k
  end.

(** [re.match(r, s)]: the length of the match at the head of [s]. *)
Definition re_match (r : regex) (s : str) : option nat :=
  match_here r s (fun rest => Some (length s - length rest)).

(** A match object: [m.start()] and [m.end()]. *)
Record Match := { m_start : nat; m_end : nat }.

Fixpoint search_from (r : regex) (pos : nat) (s : str) : option Match :=
  match re_match r s with
  | Some n => Some {| m_start := pos; m_end := pos + n |}
  | None =>
      match s with
      | [] => None
      | _ :: s' => search_from r (S pos) s'
      end
  end.

(** [re.search(r, s)]: the match at the leftmost position that has
    one. *)
Definition re_search (r : regex) (s : str) : option Match :=
  search_from r 0 s.

(** [re.sub(r, repl, s)] for a pattern that matches no empty string:
    the matches are replaced from the left; [skip] counts the characters
    of a match still to be passed over. *)
Fixpoint sub_from (r : regex) (repl : str) (skip : nat) (s : str) : str :=
  match s with
  | [] => []
  | c :: s' =>
      match skip with
      | S k => sub_from r repl k s'
      | O =>
          match re_match r s with
          | Some (S n) => repl ++ sub_from r repl n s'
          | _ => c :: sub_from r repl 0 s'
          end
      end
  end.

Definition re_sub (r : regex) (repl s : str) : str := sub_from r repl 0 s.

(** The language of a pattern, for the statements about the matcher. *)
Inductive matches : regex -> str -> Prop :=
| matches_class p c :
    p c = true -> matches (Class p) [c]
| matches_seq r1 r2 a b :
    matches r1 a -> matches r2 b -> matches (Seq r1 r2) (a ++ b)
| matches_skip r :
    matches (Optional r) []
| matches_take r a :
    matches r a -> matches (Optional r) a
| matches_repeat p lo hi a :
    Forall (fun c => p c = true) a ->
    lo <= length a ->
    (forall h, hi = Some h -> length a <= h) ->
    matches (Repeat p lo hi) a.

(** ** Floating point

    [float] is binary64: precision 53, exponent bound 1024. *)

Definition float := spec_float.

(** The binary64 number nearest to [m / 10^k], ties to even: what
    Python's [float] returns for a decimal literal of digits [m] with
    [k] of them after the point.  The quotient is taken by [SFdiv],
    which rounds once, from the exact mantissas. *)
Fixpoint pow10 (k : nat) : positive :=
  match k with
  | O => 1%positive
  | S k' => (10 * pow10 k')%positive
  end.

Definition float_of_decimal (m : N) (k : nat) : float :=
  match m with
  | N0 => S754_zero false
  | Npos p =>
      SFdiv 53 1024 (S754_finite false p 0) (S754_finite false (pow10 k) 0)
  end.

Section Parser.
Context {ucd : UnicodeData}.

(** The number a string of decimal characters denotes. *)
Fixpoint digits_value (acc : N) (s : str) : option N :=
  match s with
  | [] => Some acc
  | c :: s' =>
      match todecimal c with
      | Some d => digits_value (10 * acc + d)%N s'
      | None => None
      end
  end.

(** [s] up to the first [c], and what follows it if there is one. *)
Fixpoint cut (c : cp) (s : str) : str * option str :=
  match s with
  | [] => ([], None)
  | x :: s' =>
      if (x =? c)%N then ([], Some s')
      else let (a, b) := cut c s' in (x :: a, b)
  end.

(** [float(s)] for a string of decimal characters with at most one
    point and a digit on one side of it at least; [None] stands for the
    [ValueError] of a string that is no number.  Signs, exponents,
    underscores, [inf], [nan] and blanks around the number, which
    [float] reads too, are left out: no match of the amount pattern
    contains them. *)
Definition py_float (s : str) : option float :=
  match cut 46%N s with
  | (ip, None) =>
      match ip with
      | [] => None
      | _ :: _ => option_map (fun m => float_of_decimal m 0) (digits_value 0 ip)
      end
  | (ip, Some fp) =>
      match ip ++ fp with
      | [] => None
      | _ :: _ =>
          option_map (fun m => float_of_decimal m (length fp))
                     (digits_value 0 (ip ++ fp))
      end
  end.

End Parser.

(** The decimal digits of a number. *)
Fixpoint uint_str (d : Decimal.uint) : str :=
  match d with
  | Decimal.Nil => []
  | Decimal.D0 d' => 48%N :: uint_str d'
  | Decimal.D1 d' => 49%N :: uint_str d'
  | Decimal.D2 d' => 50%N :: uint_str d'
  | Decimal.D3 d' => 51%N :: uint_str d'
  | Decimal.D4 d' => 52%N :: uint_str d'
  | Decimal.D5 d' => 53%N :: uint_str d'
  | Decimal.D6 d' => 54%N :: uint_str d'
  | Decimal.D7 d' => 55%N :: uint_str d'
  | Decimal.D8 d' => 56%N :: uint_str d'
  | Decimal.D9 d' => 57%N :: uint_str d'
  end.

Definition N_str (n : N) : str := uint_str (N.to_uint n).

(** The integer nearest to [num / den], ties to even. *)
Definition round_half_even (num den : Z) : Z :=
  let q := (num / den)%Z in
  match (2 * (num mod den) ?= den)%Z with
  | Lt => q
  | Gt => (q + 1)%Z
  | Eq => if Z.even q then q else (q + 1)%Z
  end.

(** The integer nearest to [100 * m * 2^e]. *)
Definition hundredths (m : positive) (e : Z) : N :=
  Z.to_N (if (0 <=? e)%Z then (Zpos m * 2 ^ e * 100)%Z
          else round_half_even (Zpos m * 100) (2 ^ (- e))).

Definition sign_str (s : bool) : str := if s then lit "-" else [].

(** [f"{x:.2f}"]: the exact value of [x] rounded to two decimals, and
    [inf] or [nan] for the numbers that have no digits. *)
Definition format_2f (x : float) : str :=
  match x with
  | S754_zero s => sign_str s ++ lit "0.00"
  | S754_infinity s => sign_str s ++ lit "inf"
  | S754_nan => lit "nan"
  | S754_finite s m e =>
      let c := hundredths m e in
      sign_str s ++ N_str (c / 100) ++ lit "."
        ++ [(48 + (c mod 100) / 10)%N; (48 + c mod 10)%N]
  end.

(** ** The expense parser *)

Section ParseExpense.
Context {ucd : UnicodeData}.

(** [\d+(?:[.,]\d{1,2})?]; its one group spans the whole pattern, so
    [m.group(1)] is the matched text. *)
Definition amount_re : regex :=
  Seq (Repeat isdecimal 1 None)
      (Optional (Seq (Class (fun c => (c =? 46) || (c =? 44))%N)
                     (Repeat isdecimal 1 (Some 2)))).

(** [\s+] *)
Definition spaces_re : regex := Repeat isspace 1 None.

(** [m.group(1)] of a match in [t]. *)
Definition group1 (t : str) (m : Match) : str := slice t (m_start m) (m_end m).

(** The first two statements of [parse_expense]. *)
Definition normalize (text : str) : str :=
  let t := strip (lower text) in
  strip (replace (lit "reais") [] (replace (lit "r$") [] t)).

Definition parse_expense (text : str) : option (float * str * str) :=
  let t := strip (lower text) in
  let t := strip (replace (lit "reais") [] (replace (lit "r$") [] t)) in
  match re_search amount_re t with
  | None => None
  | Some m =>
      let raw_val := replace (lit ",") (lit ".") (replace (lit ".") [] (group1 t m)) in
      match py_float raw_val with
      | None => None
      | Some value =>
          let rest := strip (firstn (m_start m) t ++ skipn (m_end m) t) in
          let rest := strip (re_sub spaces_re (lit " ") rest) in
          let parts := split rest in
          if 2 <=? length parts
          then Some (value, join (lit " ") (removelast parts), last parts [])
          else if length parts =? 1
          then Some (value, hd [] parts, [])
          else Some (value, [], [])
      end
  end.

End ParseExpense.

(** ** JSON values

    The values of [request.get_json], of the replies of Telegram and of
    the result of the speech-to-text model.  [JNull] is Python's [None];
    an object is the list of its items, whose keys are distinct. *)

#[local] Unset Elimination Schemes.
Inductive json :=
| JNull
| JBool (b : bool)
| JInt (z : Z)
| JFloat (x : float)
| JStr (s : str)
| JList (l : list json)
| JObj (items : list (str * json)).
#[local] Set Elimination Schemes.

(** Python's truth value of an object: [if x], [not x], [x or y]. *)
Definition truthy (v : json) : bool :=
  match v with
  | JNull => false
  | JBool b => b
  | JInt z => negb (z =? 0)%Z
  | JFloat (S754_zero _) => false
  | JFloat _ => true
  | JStr s => match s with [] => false | _ :: _ => true end
  | JList l => match l with [] => false | _ :: _ => true end
  | JObj items => match items with [] => false | _ :: _ => true end
  end.

Fixpoint lookup (k : str) (items : list (str * json)) : option json :=
  match items with
  | [] => None
  | (k', v) :: items' => if str_eqb k k' then Some v else lookup k items'
  end.

(** ** Exceptions, traces and the handler monad *)

Inductive exn :=
| AttributeError
| KeyError
| TypeError
| CollaboratorError (code : N).

Inductive result (A : Type) :=
| Return (a : A)
| Raise (e : exn).
Arguments Return {A} a.
Arguments Raise {A} e.

(** The calls the handler makes to its collaborators, in order. *)
Inductive event :=
| GetFile (file_id : json)
| Download (file_path : json)
| Transcribe (audio : list N)
| AppendRow (row : list str)
| SendMessage (payload : json).

Definition trace := list event.

Definition M (A : Type) := trace -> result A * trace.

Definition ret {A} (a : A) : M A := fun tr => (Return a, tr).

Definition bind {A B} (c : M A) (f : A -> M B) : M B :=
  fun tr =>
    match c tr with
    | (Return a, tr') => f a tr'
    | (Raise e, tr') => (Raise e, tr')
    end.

Definition lift {A} (r : result A) : M A := fun tr => (r, tr).

(** A call to a collaborator is recorded, then it returns or raises. *)
Definition call {A} (ev : event) (r : result A) : M A :=
  fun tr => (r, tr ++ [ev]).

Declare Scope handler_scope.
Delimit Scope handler_scope with handler.
Notation "x <- c ;; k" := (bind c (fun x => k))
  (at level 61, c at next level, right associativity) : handler_scope.
Notation "c ;; k" := (bind c (fun _ => k))
  (at level 61, right associativity) : handler_scope.

(** [o.get(k, default)]; [o.get(k)] has the default [None]. *)
Definition py_get (o : json) (k : str) (default : json) : result json :=
  match o with
  | JObj items =>
      Return (match lookup k items with Some v => v | None => default end)
  | _ => Raise AttributeError
  end.

(** [o[k]] for a string [k]. *)
Definition py_item (o : json) (k : str) : result json :=
  match o with
  | JObj items =>
      match lookup k items with Some v => Return v | None => Raise KeyError end
  | _ => Raise TypeError
  end.

(** [k in o] for a dict [o]; the handler evaluates it only after
    [o.get] has returned, that is on a dict. *)
Definition py_contains (k : str) (o : json) : bool :=
  match o with
  | JObj items => match lookup k items with Some _ => true | None => false end
  | _ => false
  end.

(** [x or y] *)
Definition py_or (x y : json) : json := if truthy x then x else y.

(** [v.strip()] *)
Definition py_strip (v : json) : result str :=
  match v with
  | JStr s => Return (strip s)
  | _ => Raise AttributeError
  end.

(** ** The collaborators *)

Record datetime := {
  year : N; month : N; day : N; hour : N; minute : N; second : N
}.

(** What lies outside the process: the clock, Telegram's [getFile] and
    file download, the Whisper model, the worksheet and Telegram's
    [sendMessage].  Each call returns or raises. *)
Record World := {
  utcnow : datetime;
  telegram_getFile : json -> result json;
  http_download : json -> result (list N);
  whisper_transcribe : list N -> result json;
  sheets_append_row : list str -> result unit;
  telegram_sendMessage : json -> result unit
}.

Record response := { status : N; body : json }.

(** [jsonify({"ok": True})] *)
Definition ack : response :=
  {| status := 200; body := JObj [(lit "ok", JBool true)] |}.

Definition pad2 (n : N) : str :=
  if (n <? 10)%N then 48%N :: N_str n else N_str n.

(** [now.strftime("%Y-%m-%d %H:%M:%S UTC")]; the C library writes the
    year without padding. *)
Definition strftime (d : datetime) : str :=
  N_str (year d) ++ lit "-" ++ pad2 (month d) ++ lit "-" ++ pad2 (day d)
    ++ lit " " ++ pad2 (hour d) ++ lit ":" ++ pad2 (minute d) ++ lit ":"
    ++ pad2 (second d) ++ lit " UTC".

(** ** The handler *)

Section Handler.
Context {ucd : UnicodeData}.
Variable w : World.
Local Open Scope handler_scope.

Definition add_row (value : float) (desc conta original : str) : M unit :=
  let now := utcnow w in
  let datahora := strftime now in
  let row := [datahora; format_2f value; desc; conta; original] in
  call (AppendRow row) (sheets_append_row w row).

Definition send_message (chat_id : json) (text : str) (reply_to : json)
    : M unit :=
  let payload :=
    [(lit "chat_id", chat_id); (lit "text", JStr text);
     (lit "parse_mode", JStr (lit "Markdown"))] in
  let payload :=
    if truthy reply_to
    then payload ++ [(lit "reply_to_message_id", reply_to)]
    else payload in
  call (SendMessage (JObj payload)) (telegram_sendMessage w (JObj payload)).

(** The argument is the content of the temporary file. *)
Definition transcribe_ogg_to_text (ogg : list N) : M str :=
  result <- call (Transcribe ogg) (whisper_transcribe w ogg) ;;
  text <- lift (py_get result (lit "text") JNull) ;;
  lift (py_strip (py_or text (JStr []))).

Definition usage_example : str := lit "`500 padaria nubank`".

(** "Não entendi. Exemplo: `500 padaria nubank`" *)
Definition msg_not_understood : str :=
  lit "N" ++ [227%N] ++ lit "o entendi. Exemplo: " ++ usage_example.

(** "Não consegui pegar o áudio", then the confused face *)
Definition msg_no_audio : str :=
  lit "N" ++ [227%N] ++ lit "o consegui pegar o " ++ [225%N] ++ lit "udio "
    ++ [128533%N].

(** "Transcrevi vazio", the sweating smile, "Tenta falar um pouco mais
    alto e sem muito ruído." *)
Definition msg_empty_transcript : str :=
  lit "Transcrevi vazio " ++ [128517%N]
    ++ lit " Tenta falar um pouco mais alto e sem muito ru" ++ [237%N]
    ++ lit "do.".

(** "Transcrição: `{text}`\n" *)
Definition transcript_header (text : str) : str :=
  lit "Transcri" ++ [231%N; 227%N] ++ lit "o: `" ++ text ++ lit "`" ++ [10%N].

(** "Transcrição: `{text}`\nNão entendi o formato. Exemplo: `500 padaria
    nubank`" *)
Definition msg_transcript_not_understood (text : str) : str :=
  transcript_header text ++ lit "N" ++ [227%N]
    ++ lit "o entendi o formato. Exemplo: " ++ usage_example.

(** "Lançado", the check mark, " R$ {value:.2f} | {desc} | {conta}" *)
Definition msg_booked (value : float) (desc conta : str) : str :=
  lit "Lan" ++ [231%N] ++ lit "ado " ++ [9989%N] ++ lit " R$ "
    ++ format_2f value ++ lit " | " ++ desc ++ lit " | " ++ conta.

Definition webhook (request_json : json) : M response :=
  let update := py_or request_json (JObj []) in
  m <- lift (py_get update (lit "message") JNull) ;;
  message <- (if truthy m then ret m
              else lift (py_get update (lit "edited_message") JNull)) ;;
  if negb (truthy message) then ret ack else
  chat <- lift (py_get message (lit "chat") (JObj [])) ;;
  chat_id <- lift (py_get chat (lit "id") JNull) ;;
  msg_id <- lift (py_get message (lit "message_id") JNull) ;;
  file_id <-
    (if py_contains (lit "voice") message then
       voice <- lift (py_item message (lit "voice")) ;;
       lift (py_get voice (lit "file_id") JNull)
     else if py_contains (lit "audio") message then
       audio <- lift (py_item message (lit "audio")) ;;
       lift (py_get audio (lit "file_id") JNull)
     else ret JNull) ;;
  if negb (truthy file_id) then
    t <- lift (py_get message (lit "text") JNull) ;;
    text <- lift (py_strip (py_or t (JStr []))) ;;
    match text with
    | [] => ret ack
    | _ :: _ =>
        match parse_expense text with
        | None =>
            send_message chat_id msg_not_understood msg_id ;;
            ret ack
        | Some (value, desc, conta) =>
            add_row value desc conta text ;;
            send_message chat_id
              (replace (lit ".") (lit ",") (msg_booked value desc conta))
              msg_id ;;
            ret ack
        end
    end
  else
    file_info <- call (GetFile file_id) (telegram_getFile w file_id) ;;
    ok <- lift (py_get file_info (lit "ok") JNull) ;;
    if negb (truthy ok) then
      send_message chat_id msg_no_audio msg_id ;;
      ret ack
    else
    res <- lift (py_item file_info (lit "result")) ;;
    file_path <- lift (py_item res (lit "file_path")) ;;
    content <- call (Download file_path) (http_download w file_path) ;;
    text <- transcribe_ogg_to_text content ;;
    match text with
    | [] =>
        send_message chat_id msg_empty_transcript msg_id ;;
        ret ack
    | _ :: _ =>
        match parse_expense text with
        | None =>
            send_message chat_id (msg_transcript_not_understood text) msg_id ;;
            ret ack
        | Some (value, desc, conta) =>
            add_row value desc conta text ;;
            send_message chat_id
              (replace (lit ".") (lit ",")
                 (transcript_header text ++ msg_booked value desc conta))
              msg_id ;;
            ret ack
        end
    end.

End Handler.

(** ** Vocabulary of the statements *)

(** [a] occurs in [s] as a substring. *)
Definition infix (a s : str) : Prop :=
  exists pre post, s = pre ++ a ++ post.

Fixpoint infixb (a s : str) : bool :=
  startswith a s || match s with [] => false | _ :: s' => infixb a s' end.

Section Vocabulary.
Context {ucd : UnicodeData}.

Definition digits (s : str) : Prop := Forall (fun c => isdecimal c = true) s.

(** The digit a decimal character stands for. *)
Definition digit_of (c : cp) : N :=
  match todecimal c with Some d => d | None => 0%N end.

(** The number a string of decimal characters stands for. *)
Definition number (s : str) : N :=
  fold_left (fun acc c => (10 * acc + digit_of c)%N) s 0%N.

(** The amount pattern in the words of the specification: one or more
    digits, optionally followed by one separator, [.] or [,], and one
    or two digits. *)
Definition amount_text (g : str) : Prop :=
  exists ds tail,
    g = ds ++ tail /\ ds <> [] /\ digits ds /\
    (tail = [] \/
     exists sep fs,
       tail = sep :: fs /\ (sep = 46%N \/ sep = 44%N) /\ digits fs /\
       1 <= length fs <= 2).

Definition contains_amount (t : str) : Prop :=
  exists pre g post, t = pre ++ g ++ post /\ amount_text g.

(** What an amount means: [n / 10^k].  A comma is the decimal
    separator; a dot separates thousands and counts for nothing. *)
Inductive amount_denotes : str -> N -> nat -> Prop :=
| amount_whole ds :
    ds <> [] -> digits ds ->
    amount_denotes ds (number ds) 0
| amount_comma ds fs :
    ds <> [] -> digits ds -> digits fs -> 1 <= length fs <= 2 ->
    amount_denotes (ds ++ 44%N :: fs) (number (ds ++ fs)) (length fs)
| amount_dot ds fs :
    ds <> [] -> digits ds -> digits fs -> 1 <= length fs <= 2 ->
    amount_denotes (ds ++ 46%N :: fs) (number (ds ++ fs)) 0.


(** [parse_expense] from its third statement on, on a normalised text. *)
Definition parse_normalized (t : str) : option (float * str * str) :=
  match re_search amount_re t with
  | None => None
  | Some m =>
      let raw_val := replace (lit ",") (lit ".") (replace (lit ".") [] (group1 t m)) in
      match py_float raw_val with
      | None => None
      | Some value =>
          let rest := strip (firstn (m_start m) t ++ skipn (m_end m) t) in
          let rest := strip (re_sub spaces_re (lit " ") rest) in
          let parts := split rest in
          if 2 <=? length parts
          then Some (value, join (lit " ") (removelast parts), last parts [])
          else if length parts =? 1
          then Some (value, hd [] parts, [])
          else Some (value, [], [])
      end
  end.

(** The text of [t] around a match. *)
Definition remainder (t : str) (m : Match) : str :=
  firstn (m_start m) t ++ skipn (m_end m) t.

End Vocabulary.

(** The message of an update: [update.get("message") or
    update.get("edited_message")]. *)
Definition message_of (request_json : json) : result json :=
  let update := py_or request_json (JObj []) in
  match py_get update (lit "message") JNull with
  | Return m =>
      if truthy m then Return m
      else py_get update (lit "edited_message") JNull
  | Raise e => Raise e
  end.

(** [message.get("chat", {}).get("id")] *)
Definition chat_id_of (message : json) : result json :=
  match py_get message (lit "chat") (JObj []) with
  | Return chat => py_get chat (lit "id") JNull
  | Raise e => Raise e
  end.

(** The [file_id] the handler selects: that of [voice] when the message
    has the key, that of [audio] otherwise. *)
Definition file_id_of (message : json) : result json :=
  if py_contains (lit "voice") message then
    match py_item message (lit "voice") with
    | Return voice => py_get voice (lit "file_id") JNull
    | Raise e => Raise e
    end
  else if py_contains (lit "audio") message then
    match py_item message (lit "audio") with
    | Return audio => py_get audio (lit "file_id") JNull
    | Raise e => Raise e
    end
  else Return JNull.

(** [(message.get("text") or "").strip()] *)
Definition text_of (message : json) : result str :=
  match py_get message (lit "text") JNull with
  | Return t => py_strip (py_or t (JStr []))
  | Raise e => Raise e
  end.

(** The payload of [send_message]. *)
Definition reply_payload (chat_id : json) (text : str) (reply_to : json)
    : json :=
  JObj ([(lit "chat_id", chat_id); (lit "text", JStr text);
         (lit "parse_mode", JStr (lit "Markdown"))]
        ++ if truthy reply_to then [(lit "reply_to_message_id", reply_to)]
           else []).

(** No row was appended to the ledger. *)
Definition no_row (tr : trace) : Prop :=
  forall row, ~ In (AppendRow row) tr.

Definition spaces (s : str) : Prop := Forall (fun c => isspace c = true) s.

(** Deleting every [.] and turning every [,] into [.], character by
    character. *)
Definition delete_dots (s : str) : str :=
  filter (fun c => negb (c =? 46)%N) s.

Definition comma_to_dot (s : str) : str :=
  map (fun c => if (c =? 44)%N then 46%N else c) s.

(** The description and the account, from the tokens around the
    amount. *)
Definition fields (value : float) (parts : list str)
    : option (float * str * str) :=
  if 2 <=? length parts
  then Some (value, join (lit " ") (removelast parts), last parts [])
  else if length parts =? 1
  then Some (value, hd [] parts, [])
  else Some (value, [], []).

(** *** Views of the handler *)

Section Views.
Context {ucd : UnicodeData}.
Variable w : World.
Local Open Scope handler_scope.

(** The handler on a text, from [parsed = parse_expense(text)] on. *)
Definition text_branch (chat_id msg_id : json) (text : str) : M response :=
  match text with
  | [] => ret ack
  | _ :: _ =>
      match parse_expense text with
      | None =>
          send_message w chat_id msg_not_understood msg_id ;;
          ret ack
      | Some (value, desc, conta) =>
          add_row w value desc conta text ;;
          send_message w chat_id
            (replace (lit ".") (lit ",") (msg_booked value desc conta))
            msg_id ;;
          ret ack
      end
  end.

(** The handler on an attachment, from the call of [getFile] on. *)
Definition audio_branch (chat_id msg_id file_id : json) : M response :=
  file_info <- call (GetFile file_id) (telegram_getFile w file_id) ;;
  ok <- lift (py_get file_info (lit "ok") JNull) ;;
  if negb (truthy ok) then
    send_message w chat_id msg_no_audio msg_id ;;
    ret ack
  else
  res <- lift (py_item file_info (lit "result")) ;;
  file_path <- lift (py_item res (lit "file_path")) ;;
  content <- call (Download file_path) (http_download w file_path) ;;
  text <- transcribe_ogg_to_text w content ;;
  match text with
  | [] =>
      send_message w chat_id msg_empty_transcript msg_id ;;
      ret ack
  | _ :: _ =>
      match parse_expense text with
      | None =>
          send_message w chat_id (msg_transcript_not_understood text) msg_id ;;
          ret ack
      | Some (value, desc, conta) =>
          add_row w value desc conta text ;;
          send_message w chat_id
            (replace (lit ".") (lit ",")
               (transcript_header text ++ msg_booked value desc conta))
            msg_id ;;
          ret ack
      end
  end.

End Views.

(** An update whose message the handler treats as text [text]: no
    attachment with a [file_id] is selected. *)
Definition text_update (request_json chat_id msg_id : json) (text : str)
    : Prop :=
  exists message file_id,
    message_of request_json = Return message /\ truthy message = true /\
    chat_id_of message = Return chat_id /\
    py_get message (lit "message_id") JNull = Return msg_id /\
    file_id_of message = Return file_id /\ truthy file_id = false /\
    text_of message = Return text.

(** An update whose message carries the attachment [file_id]. *)
Definition audio_update (request_json chat_id msg_id file_id : json) : Prop :=
  exists message,
    message_of request_json = Return message /\ truthy message = true /\
    chat_id_of message = Return chat_id /\
    py_get message (lit "message_id") JNull = Return msg_id /\
    file_id_of message = Return file_id /\ truthy file_id = true.

(** The collaborators turn the attachment [file_id] into the text
    [text]: Telegram resolves it to [file_path], the download gives
    [content], the model transcribes it. *)
Definition transcribed (w : World) (file_id file_path : json)
    (content : list N) (text : str) : Prop :=
  exists file_info ok res result t,
    telegram_getFile w file_id = Return file_info /\
    py_get file_info (lit "ok") JNull = Return ok /\ truthy ok = true /\
    py_item file_info (lit "result") = Return res /\
    py_item res (lit "file_path") = Return file_path /\
    http_download w file_path = Return content /\
    whisper_transcribe w content = Return result /\
    py_get result (lit "text") JNull = Return t /\
    py_strip (py_or t (JStr [])) = Return text.

(** A reply was sent whose text contains both [a] and [b]. *)
Definition replied_with (tr : trace) (a b : str) : Prop :=
  exists payload body,
    In (SendMessage (JObj payload)) tr /\
    lookup (lit "text") payload = Some (JStr body) /\
    infix a body /\ infix b body.

(** Two messages that differ in their [text] field at most. *)
Definition same_but_text (msg msg' : list (str * json)) : Prop :=
  forall k, k <> lit "text" -> lookup k msg = lookup k msg'.

(** The message has a [voice] with a [file_id], or no [voice] and an
    [audio] with a [file_id]. *)
Definition carries_attachment (msg : list (str * json)) : Prop :=
  (exists v fid,
     lookup (lit "voice") msg = Some (JObj v) /\
     lookup (lit "file_id") v = Some fid /\ truthy fid = true) \/
  (lookup (lit "voice") msg = None /\
   exists a fid,
     lookup (lit "audio") msg = Some (JObj a) /\
     lookup (lit "file_id") a = Some fid /\ truthy fid = true).

(** *** Payloads of the shape Telegram sends, collaborators that
    answer *)

Definition absent_or_object (v : option json) : bool :=
  match v with
  | None | Some (JObj _) => true
  | Some _ => false
  end.

Definition message_shaped (v : json) : bool :=
  match v with
  | JObj msg =>
      absent_or_object (lookup (lit "chat") msg)
      && absent_or_object (lookup (lit "voice") msg)
      && absent_or_object (lookup (lit "audio") msg)
      && match lookup (lit "text") msg with
         | None | Some (JStr _) => true
         | Some t => negb (truthy t)
         end
  | _ => negb (truthy v)
  end.

Definition field (k : str) (items : list (str * json)) : json :=
  match lookup k items with Some v => v | None => JNull end.

Definition update_shaped (request_json : json) : bool :=
  match py_or request_json (JObj []) with
  | JObj u =>
      message_shaped (field (lit "message") u)
      && (truthy (field (lit "message") u)
          || message_shaped (field (lit "edited_message") u))
  | _ => false
  end.

Definition file_info_shaped (info : json) : bool :=
  match info with
  | JObj items =>
      negb (truthy (field (lit "ok") items))
      || match lookup (lit "result") items with
         | Some (JObj res) =>
             match lookup (lit "file_path") res with
             | Some _ => true
             | None => false
             end
         | _ => false
         end
  | _ => false
  end.

Definition transcript_shaped (result : json) : bool :=
  match result with
  | JObj items =>
      match lookup (lit "text") items with
      | None | Some (JStr _) => true
      | Some t => negb (truthy t)
      end
  | _ => false
  end.

(** Every call to a collaborator returns, with a well-formed answer. *)
Definition dependable (w : World) : Prop :=
  (forall fid, exists info,
      telegram_getFile w fid = Return info /\ file_info_shaped info = true) /\
  (forall path, exists content, http_download w path = Return content) /\
  (forall content, exists result,
      whisper_transcribe w content = Return result /\
      transcript_shaped result = true) /\
  (forall row, sheets_append_row w row = Return tt) /\
  (forall payload, telegram_sendMessage w payload = Return tt).

(** Whatever the handler returns is the acknowledgment. *)
Definition only_ack (c : M response) : Prop :=
  forall tr r tr', c tr = (Return r, tr') -> r = ack.

(** The handler returns, and returns the acknowledgment. *)
Definition returns_ack (c : M response) : Prop :=
  forall tr, exists tr', c tr = (Return ack, tr').

(** A computation only adds calls to the trace. *)
Definition extends (A : Type) (c : M A) : Prop :=
  forall tr, exists added, snd (c tr) = tr ++ added.

(** *** Sample worlds and updates *)

Definition noon : datetime :=
  {| year := 2024; month := 3; day := 9; hour := 12; minute := 0;
     second := 5 |}.

(** Every collaborator answers; the transcript is "almoço". *)
Definition calm_world : World := {|
  utcnow := noon;
  telegram_getFile := fun _ =>
    Return (JObj [(lit "ok", JBool true);
                  (lit "result",
                   JObj [(lit "file_path", JStr (lit "voice/file_1.oga"))])]);
  http_download := fun _ => Return [79; 103; 103; 83]%N;
  whisper_transcribe := fun _ =>
    Return (JObj [(lit "text", JStr (lit " almo" ++ [231%N] ++ lit "o"))]);
  sheets_append_row := fun _ => Return tt;
  telegram_sendMessage := fun _ => Return tt
|}.

(** The worksheet refuses the row. *)
Definition ledger_down : World := {|
  utcnow := noon;
  telegram_getFile := telegram_getFile calm_world;
  http_download := http_download calm_world;
  whisper_transcribe := whisper_transcribe calm_world;
  sheets_append_row := fun _ => Raise (CollaboratorError 503);
  telegram_sendMessage := fun _ => Return tt
|}.

Definition text_message (text : str) : json :=
  JObj [(lit "update_id", JInt 1);
        (lit "message",
         JObj [(lit "message_id", JInt 7);
               (lit "chat", JObj [(lit "id", JInt 42)]);
               (lit "text", JStr text)])].

Definition voice_message (caption : option str) : json :=
  JObj [(lit "update_id", JInt 2);
        (lit "message",
         JObj ([(lit "message_id", JInt 8);
                (lit "chat", JObj [(lit "id", JInt 42)]);
                (lit "voice", JObj [(lit "file_id", JStr (lit "AwACAgQ"))])]
               ++ match caption with
                  | Some t => [(lit "text", JStr t)]
                  | None => []
                  end))].

(** An amount of 309 digits. *)
Definition huge_amount : str := repeat 57%N 309 ++ lit " a b".

(** *** The columns of a row *)

Definition ascii_digit (c : cp) : Prop := (48 <= c <= 57)%N.

(** A string of digits, a point and two digits. *)
Definition two_decimals (s : str) : Prop :=
  exists ip d1 d2,
    s = ip ++ 46%N :: [d1; d2] /\ ip <> [] /\
    Forall ascii_digit ip /\ ascii_digit d1 /\ ascii_digit d2.

Definition all_ascii_digits (s : str) : bool :=
  forallb (fun c => (48 <=? c) && (c <=? 57))%N s.

(** A date and time of the calendar, with a year of four digits. *)
Definition calendar (d : datetime) : Prop :=
  (1000 <= year d <= 9999)%N /\ (1 <= month d <= 12)%N /\
  (1 <= day d <= 31)%N /\ (hour d < 24)%N /\ (minute d < 60)%N /\
  (second d < 60)%N.

(** "YYYY-MM-DD HH:MM:SS UTC" *)
Definition timestamp_shape (s : str) : Prop :=
  exists y mo d h mi se,
    s = y ++ lit "-" ++ mo ++ lit "-" ++ d ++ lit " " ++ h ++ lit ":" ++ mi
          ++ lit ":" ++ se ++ lit " UTC" /\
    length y = 4 /\ length mo = 2 /\ length d = 2 /\ length h = 2 /\
    length mi = 2 /\ length se = 2 /\
    all_ascii_digits (y ++ mo ++ d ++ h ++ mi ++ se) = true.

(** ** The configuration of the module *)

(** [os.getenv(k, default)] over the environment of the process. *)
Definition getenv (environ : str -> option str) (k default : str) : str :=
  match environ k with
  | Some v => v
  | None => default
  end.

Record Config := {
  TELEGRAM_BOT_TOKEN : str;
  SHEET_ID : str;
  WORKSHEET_NAME : str;
  GOOGLE_SA_JSON_B64 : str
}.

(** "Faltou {name} nas variáveis de ambiente." *)
Definition msg_missing (name : str) : str :=
  lit "Faltou " ++ name ++ lit " nas vari" ++ [225%N] ++ lit "veis de ambiente.".

(** The four assignments and the three checks at the head of the
    module; [inl message] is [RuntimeError(message)]. *)
Definition load_config (environ : str -> option str) : str + Config :=
  let token := strip (getenv environ (lit "TELEGRAM_BOT_TOKEN") []) in
  let sheet_id := strip (getenv environ (lit "SHEET_ID") []) in
  let worksheet_name :=
    strip (getenv environ (lit "WORKSHEET_NAME") (lit "Gastos")) in
  let sa_json := strip (getenv environ (lit "GOOGLE_SA_JSON_B64") []) in
  match token with
  | [] => inl (msg_missing (lit "TELEGRAM_BOT_TOKEN"))
  | _ :: _ =>
      match sheet_id with
      | [] => inl (msg_missing (lit "SHEET_ID"))
      | _ :: _ =>
          match sa_json with
          | [] => inl (msg_missing (lit "GOOGLE_SA_JSON_B64"))
          | _ :: _ =>
              inr {| TELEGRAM_BOT_TOKEN := token; SHEET_ID := sheet_id;
                     WORKSHEET_NAME := worksheet_name;
                     GOOGLE_SA_JSON_B64 := sa_json |}
          end
      end
  end.

(** ** More vocabulary *)

(** A token: not empty, no whitespace in it. *)
Definition token (p : str) : Prop :=
  p <> [] /\ Forall (fun c => isspace c = false) p.

(** The calls of the handler in the order of its text: [getFile], the
    download, the transcription, the row, the reply. *)
Definition rank (ev : event) : nat :=
  match ev with
  | GetFile _ => 0
  | Download _ => 1
  | Transcribe _ => 2
  | AppendRow _ => 3
  | SendMessage _ => 4
  end.

Fixpoint ascending (l : list nat) : Prop :=
  match l with
  | a :: (b :: _) as l' => a < b /\ ascending l'
  | _ => True
  end.

(** What a collaborator raises when it is called with [ev], if it
    raises. *)
Definition failure (w : World) (ev : event) : option exn :=
  match ev with
  | GetFile file_id =>
      match telegram_getFile w file_id with
      | Raise e => Some e
      | Return _ => None
      end
  | Download file_path =>
      match http_download w file_path with
      | Raise e => Some e
      | Return _ => None
      end
  | Transcribe audio =>
      match whisper_transcribe w audio with
      | Raise e => Some e
      | Return _ => None
      end
  | AppendRow row =>
      match sheets_append_row w row with
      | Raise e => Some e
      | Return _ => None
      end
  | SendMessage payload =>
      match telegram_sendMessage w payload with
      | Raise e => Some e
      | Return _ => None
      end
  end.

(** A computation stops at the first call that fails, and raises what
    the call raised. *)
Definition fail_fast (w : World) (A : Type) (c : M A) : Prop :=
  forall tr, exists added,
    snd (c tr) = tr ++ added /\
    forall pre ev post e,
      added = pre ++ ev :: post -> failure w ev = Some e ->
      post = [] /\ fst (c tr) = Raise e.

(** [s.replace(".", ",")], character by character. *)
Definition dot_to_comma (s : str) : str :=
  map (fun c => if (c =? 46)%N then 44%N else c) s.

(** What the handler returns after a reply: the acknowledgment, or what
    [sendMessage] raised. *)
Definition after_reply (r : result unit) : result response :=
  match r with
  | Return _ => Return ack
  | Raise e => Raise e
  end.

(** A reply to the message [msg_id] of the chat [chat_id], with a text
    that is not empty. *)
Definition addressed (chat_id msg_id payload : json) : Prop :=
  exists text, payload = reply_payload chat_id text msg_id /\ text <> [].

Section HandlerVocabulary.
Context {ucd : UnicodeData}.

(** A row of the ledger that records the parse of a text: the text is
    not empty, has no whitespace at its ends, and parses to the value,
    the description and the account of the row. *)
Definition booked_row (w : World) (row : list str) : Prop :=
  exists text value desc conta,
    row = [strftime (utcnow w); format_2f value; desc; conta; text] /\
    parse_expense text = Some (value, desc, conta) /\
    text <> [] /\ strip text = text.

(** The calls of one update: in the order of the handler's text, each
    at most once; every row records a parse; every reply answers the
    message. *)
Definition tidy (w : World) (chat_id msg_id : json) (added : trace) : Prop :=
  ascending (map rank added) /\
  (forall row, In (AppendRow row) added -> booked_row w row) /\
  (forall payload, In (SendMessage payload) added ->
                   addressed chat_id msg_id payload).

End HandlerVocabulary.

(** An amount of [c] hundredths, written with two decimals. *)
Definition cents_str (c : N) : str :=
  N_str (c / 100) ++ lit "."
    ++ [(48 + (c mod 100) / 10)%N; (48 + c mod 10)%N].

(** Unset, or set to whitespace only. *)
Definition blank (environ : str -> option str) (k : str) : Prop :=
  match environ k with
  | None => True
  | Some v => spaces v
  end.

(** A capital letter of ASCII. *)
Definition ascii_capital (c : cp) : bool := ((65 <=? c) && (c <=? 90))%N.

(** A separator of the amount pattern: [.] or [,]. *)
Definition is_sep (c : cp) : bool := ((c =? 46) || (c =? 44))%N.

Section GreedyVocabulary.
Context {ucd : UnicodeData}.

(** The text does not go on with a digit. *)
Definition no_digit_ahead (post : str) : Prop :=
  match post with
  | [] => True
  | c :: _ => isdecimal c = false
  end.

(** The text does not go on with a separator and a digit. *)
Definition no_fraction_ahead (post : str) : Prop :=
  match post with
  | x :: y :: _ => is_sep x && isdecimal y = false
  | _ => True
  end.

End GreedyVocabulary.

(** *** More sample worlds *)

(** As [calm_world], with a transcript that parses. *)
Definition dictating_world : World := {|
  utcnow := noon;
  telegram_getFile := telegram_getFile calm_world;
  http_download := http_download calm_world;
  whisper_transcribe := fun _ =>
    Return (JObj [(lit "text", JStr (lit " 32,90 mercado inter."))]);
  sheets_append_row := fun _ => Return tt;
  telegram_sendMessage := fun _ => Return tt
|}.

(** Telegram does not give the file. *)
Definition refusing_world : World := {|
  utcnow := noon;
  telegram_getFile := fun _ => Return (JObj [(lit "ok", JBool false)]);
  http_download := http_download calm_world;
  whisper_transcribe := whisper_transcribe calm_world;
  sheets_append_row := fun _ => Return tt;
  telegram_sendMessage := fun _ => Return tt
|}.

(** The model hears nothing. *)
Definition mute_world : World := {|
  utcnow := noon;
  telegram_getFile := telegram_getFile calm_world;
  http_download := http_download calm_world;
  whisper_transcribe := fun _ => Return (JObj [(lit "text", JStr (lit " "))]);
  sheets_append_row := fun _ => Return tt;
  telegram_sendMessage := fun _ => Return tt
|}.

(** *** The normalisation in the words of the specification *)









(** A message with an audio that has a [file_id], a text, and a
    [voice] that has none. *)
Definition audio_behind_voice : list (str * json) :=
  [(lit "message_id", JInt 9);
   (lit "chat", JObj [(lit "id", JInt 42)]);
   (lit "voice", JObj []);
   (lit "audio", JObj [(lit "file_id", JStr (lit "CQACAgQ"))]);
   (lit "text", JStr (lit "500 padaria nubank"))].

(* ================================================================== *)
(** * Part II. Theorems                                                *)
(* ================================================================== *)

(** ** Whitespace at the ends of a string *)


Lemma lstrip_cut (s : str) :
  exists l, s = l ++ lstrip s /\ spaces l.
Proof.
  induction s as [|c s IH]; simpl.
  - exists []. split; [reflexivity | constructor].
  - destruct (isspace c) eqn:E.
    + destruct IH as (l & Hl & Hs). exists (c :: l). split.
      * simpl. congruence.
      * constructor; assumption.
    + exists []. split; [reflexivity | constructor].
Qed.

Lemma lstrip_spaces (l x : str) : spaces l -> lstrip (l ++ x) = lstrip x.
Proof.
  induction 1 as [|c l Hc _ IH]; simpl; [reflexivity|].
  rewrite Hc. exact IH.
Qed.

Lemma lstrip_all_spaces (l : str) : spaces l -> lstrip l = [].
Proof.
  intros H. rewrite <- (app_nil_r l). rewrite lstrip_spaces by assumption.
  reflexivity.
Qed.


Lemma lstrip_app_keep (x r : str) :
  lstrip x <> [] -> lstrip (x ++ r) = lstrip x ++ r.
Proof.
  induction x as [|c x IH]; simpl; [congruence|].
  destruct (isspace c); auto.
Qed.

Lemma spaces_rev (l : str) : spaces l -> spaces (rev l).
Proof. unfold spaces. apply Forall_rev. Qed.

Lemma spaces_app (a b : str) : spaces a -> spaces b -> spaces (a ++ b).
Proof. unfold spaces. intros. apply Forall_app. now split. Qed.

Lemma rstrip_cut (s : str) :
  exists r, s = rstrip s ++ r /\ spaces r.
Proof.
  unfold rstrip. destruct (lstrip_cut (rev s)) as (l & Hl & Hs).
  exists (rev l). split; [|now apply spaces_rev].
  rewrite <- rev_app_distr, <- Hl, rev_involutive. reflexivity.
Qed.

Lemma rstrip_spaces (x r : str) : spaces r -> rstrip (x ++ r) = rstrip x.
Proof.
  intros H. unfold rstrip. rewrite rev_app_distr.
  rewrite lstrip_spaces by now apply spaces_rev. reflexivity.
Qed.

Lemma rstrip_nil : rstrip [] = [].
Proof. reflexivity. Qed.

(** A string is its stripped text between two runs of whitespace. *)
Lemma strip_cut (s : str) :
  exists l r, s = l ++ strip s ++ r /\ spaces l /\ spaces r.
Proof.
  destruct (lstrip_cut s) as (l & Hl & Hsl).
  destruct (rstrip_cut (lstrip s)) as (r & Hr & Hsr).
  exists l, r. unfold strip. rewrite <- Hr, <- Hl. auto.
Qed.

Lemma strip_padded (l x r : str) :
  spaces l -> spaces r -> strip (l ++ x ++ r) = strip x.
Proof.
  intros Hl Hr. unfold strip. rewrite lstrip_spaces by assumption.
  destruct (lstrip x) as [|c x'] eqn:E.
  - destruct (lstrip_cut x) as (l' & Hx & Hl'). rewrite E, app_nil_r in Hx.
    subst l'. rewrite lstrip_all_spaces by now apply spaces_app.
    reflexivity.
  - rewrite lstrip_app_keep by congruence. rewrite E.
    apply rstrip_spaces. assumption.
Qed.

(** ** Tokens *)

Lemma split_from_spaces (l s : str) :
  spaces l -> split_from [] (l ++ s) = split_from [] s.
Proof.
  induction 1 as [|c l Hc _ IH]; simpl; [reflexivity|].
  rewrite Hc. exact IH.
Qed.

Lemma split_from_all_spaces (cur r : str) :
  spaces r ->
  split_from cur r = match cur with [] => [] | _ :: _ => [rev cur] end.
Proof.
  intros Hr. revert cur. induction Hr as [|c r Hc _ IH]; intros cur; simpl.
  - reflexivity.
  - rewrite Hc. destruct cur; rewrite (IH []); reflexivity.
Qed.

Lemma split_from_trailing (cur s r : str) :
  spaces r -> split_from cur (s ++ r) = split_from cur s.
Proof.
  intros Hr. revert cur. induction s as [|c s IH]; intros cur; simpl.
  - apply split_from_all_spaces. assumption.
  - destruct (isspace c); [destruct cur|]; rewrite ?IH; reflexivity.
Qed.

(** Stripping a string does not change its tokens. *)
Lemma split_strip (s : str) : split (strip s) = split s.
Proof.
  destruct (strip_cut s) as (l & r & Hs & Hl & Hr).
  rewrite Hs at 2. unfold split.
  rewrite split_from_spaces by assumption.
  rewrite split_from_trailing by assumption. reflexivity.
Qed.

Lemma split_lstrip (s : str) : split (lstrip s) = split s.
Proof.
  destruct (lstrip_cut s) as (l & Hs & Hl).
  rewrite Hs at 2. unfold split. now rewrite split_from_spaces.
Qed.

(** ** [str.replace] *)

Lemma startswith_app (p s : str) : startswith p (p ++ s) = true.
Proof.
  induction p as [|a p IH]; simpl; [reflexivity|].
  rewrite N.eqb_refl. exact IH.
Qed.

Lemma startswith_inv (p s : str) :
  startswith p s = true -> exists s', s = p ++ s'.
Proof.
  revert s. induction p as [|a p IH]; intros s H; simpl in *.
  - now exists s.
  - destruct s as [|b s]; [discriminate|].
    apply andb_prop in H. destruct H as [Hab Hp].
    apply N.eqb_eq in Hab. subst b.
    destruct (IH _ Hp) as (s' & ->). now exists s'.
Qed.

Lemma replace_from_skipn (old new : str) (k : nat) (s : str) :
  replace_from old new k s = replace_from old new 0 (skipn k s).
Proof.
  revert k. induction s as [|c s IH]; intros k.
  - destruct k; reflexivity.
  - destruct k as [|k]; [reflexivity|]. simpl skipn.
    rewrite <- IH. reflexivity.
Qed.

Lemma replace_nil (old new : str) : old <> [] -> replace old new [] = [].
Proof. destruct old; [congruence | reflexivity]. Qed.

(** An occurrence at the head is replaced, and the scan goes on behind
    it. *)
Lemma replace_hit (old new s : str) :
  old <> [] -> replace old new (old ++ s) = new ++ replace old new s.
Proof.
  intros Hold. destruct old as [|a old]; [congruence|].
  unfold replace. cbn [app replace_from].
  change (startswith (a :: old) (a :: old ++ s))
    with (startswith (a :: old) ((a :: old) ++ s)).
  rewrite startswith_app. f_equal.
  rewrite replace_from_skipn.
  replace (length (a :: old) - 1) with (length old) by (simpl; lia).
  rewrite skipn_app, skipn_all, Nat.sub_diag. reflexivity.
Qed.

(** A character that starts no occurrence is kept. *)
Lemma replace_miss (old new : str) (c : cp) (s : str) :
  old <> [] -> startswith old (c :: s) = false ->
  replace old new (c :: s) = c :: replace old new s.
Proof.
  intros Hold H. destruct old as [|a old]; [congruence|].
  unfold replace. cbn [replace_from]. rewrite H. reflexivity.
Qed.

(** Replacing a one-character string works character by character. *)
Lemma replace_char (c : cp) (new s : str) :
  replace [c] new s = flat_map (fun x => if (x =? c)%N then new else [x]) s.
Proof.
  induction s as [|x s IH]; [reflexivity|].
  cbn [flat_map]. destruct (x =? c)%N eqn:E.
  - apply N.eqb_eq in E. subst x.
    change (c :: s) with ([c] ++ s). rewrite replace_hit by congruence.
    now rewrite IH.
  - rewrite replace_miss; [now rewrite IH | congruence |].
    simpl. rewrite N.eqb_sym, E. reflexivity.
Qed.

Lemma startswith_trailing (old x r : str) :
  Forall (fun c => isspace c = false) old -> spaces r ->
  startswith old (x ++ r) = startswith old x.
Proof.
  intros Hold Hr. revert x. induction Hold as [|a old Ha _ IH]; intros x.
  - reflexivity.
  - destruct x as [|b x]; simpl.
    + destruct r as [|b r]; [reflexivity|]. simpl.
      destruct (a =? b)%N eqn:E; [|reflexivity].
      apply N.eqb_eq in E. subst b. inversion Hr; subst. congruence.
    + rewrite IH. reflexivity.
Qed.

Lemma replace_spaces (old new r : str) :
  old <> [] -> Forall (fun c => isspace c = false) old -> spaces r ->
  replace old new r = r.
Proof.
  intros Hne Hold Hr. induction Hr as [|c r Hc _ IH].
  - now apply replace_nil.
  - rewrite replace_miss; [now rewrite IH | assumption |].
    destruct old as [|a old]; [congruence|]. simpl.
    destruct (a =? c)%N eqn:E; [|reflexivity].
    apply N.eqb_eq in E. subst. inversion Hold; subst. congruence.
Qed.

Lemma replace_leading (old new l x : str) :
  old <> [] -> Forall (fun c => isspace c = false) old -> spaces l ->
  replace old new (l ++ x) = l ++ replace old new x.
Proof.
  intros Hne Hold Hl. induction Hl as [|c l Hc _ IH]; [reflexivity|].
  cbn [app]. rewrite replace_miss; [now rewrite IH | assumption |].
  destruct old as [|a old]; [congruence|]. simpl.
  destruct (a =? c)%N eqn:E; [|reflexivity].
  apply N.eqb_eq in E. subst. inversion Hold; subst. congruence.
Qed.

Lemma replace_trailing (old new x r : str) :
  old <> [] -> Forall (fun c => isspace c = false) old -> spaces r ->
  replace old new (x ++ r) = replace old new x ++ r.
Proof.
  intros Hne Hold Hr.
  remember (length x) as n eqn:Hn. revert x Hn.
  induction n as [n IH] using lt_wf_ind. intros x Hn.
  destruct x as [|c x].
  - simpl. rewrite replace_nil by assumption. now apply replace_spaces.
  - destruct (startswith old (c :: x)) eqn:E.
    + apply startswith_inv in E. destruct E as (x' & Hx). rewrite Hx.
      rewrite <- app_assoc, !replace_hit by assumption.
      rewrite <- app_assoc. f_equal.
      apply (IH (length x')); [|reflexivity].
      subst n. rewrite Hx, length_app.
      destruct old; [congruence | simpl; lia].
    + cbn [app]. rewrite !replace_miss; try assumption.
      * cbn [app]. f_equal. apply (IH (length x)); [subst n; simpl; lia | reflexivity].
      * change (c :: x ++ r) with ((c :: x) ++ r).
        now rewrite startswith_trailing.
Qed.

(** Whitespace around a text is no part of an occurrence of a word
    without whitespace: replacing and stripping commute. *)
Lemma strip_replace_strip (old new s : str) :
  old <> [] -> Forall (fun c => isspace c = false) old ->
  strip (replace old new (strip s)) = strip (replace old new s).
Proof.
  intros Hne Hold. destruct (strip_cut s) as (l & r & Hs & Hl & Hr).
  rewrite Hs at 2.
  rewrite replace_leading, replace_trailing by assumption.
  now rewrite strip_padded.
Qed.

(** ** The matcher finds a match exactly when the language has one *)

Section Matcher.
Variable A : Type.

Lemma repeat_greedy_sound (p : cp -> bool) (s : str) :
  forall lo hi (k : str -> option A) x,
    repeat_greedy p lo hi s k = Some x ->
    exists a b, s = a ++ b /\ matches (Repeat p lo hi) a /\ k b = Some x.
Proof.
  induction s as [|c s IH]; intros lo hi k x H.
  - simpl in H. destruct lo; [|discriminate].
    exists [], []. repeat split; [|assumption].
    constructor; [constructor | simpl; lia | simpl; lia].
  - assert (Hstop : match lo with O => k (c :: s) | S _ => None end = Some x ->
              exists a b, c :: s = a ++ b /\ matches (Repeat p lo hi) a /\ k b = Some x).
    { destruct lo; [|discriminate]. intros Hk.
      exists [], (c :: s). repeat split; [|assumption].
      constructor; [constructor | simpl; lia | simpl; lia]. }
    simpl in H. destruct (p c && below hi) eqn:E; [|now apply Hstop].
    apply andb_prop in E. destruct E as [Hp Hb].
    destruct (repeat_greedy p (pred lo) (option_map pred hi) s k) as [y|] eqn:R;
      [|now apply Hstop].
    inversion H; subst y. apply IH in R.
    destruct R as (a & b & -> & Ha & Hk).
    exists (c :: a), b. repeat split; [|assumption].
    inversion Ha as [ | | | |p' lo' hi' a' Hall Hlo Hhi]; subst.
    constructor.
    + constructor; assumption.
    + simpl. lia.
    + intros h ->. destruct h as [|h]; [discriminate Hb|].
      specialize (Hhi h eq_refl). simpl. lia.
Qed.

Lemma repeat_greedy_complete (p : cp -> bool) (a b : str) :
  forall lo hi (k : str -> option A),
    Forall (fun c => p c = true) a -> lo <= length a ->
    (forall h, hi = Some h -> length a <= h) ->
    k b <> None ->
    repeat_greedy p lo hi (a ++ b) k <> None.
Proof.
  induction a as [|c a IH]; intros lo hi k Hall Hlo Hhi Hk.
  - simpl in Hlo. assert (lo = 0) by lia. subst lo.
    destruct b as [|c b]; simpl; [assumption|].
    destruct (p c && below hi); [|assumption].
    destruct (repeat_greedy p 0 (option_map pred hi) b k); [discriminate | assumption].
  - inversion Hall as [|c' a' Hc Ha]; subst. cbn [app repeat_greedy].
    assert (Hb : below hi = true).
    { destruct hi as [[|h]|]; try reflexivity.
      specialize (Hhi 0 eq_refl). simpl in Hhi. lia. }
    rewrite Hc, Hb. cbn [andb].
    assert (R : repeat_greedy p (pred lo) (option_map pred hi) (a ++ b) k <> None).
    { apply IH; try assumption.
      - simpl in Hlo. lia.
      - intros h Hh. destruct hi as [h'|]; [|discriminate].
        simpl in Hh. inversion Hh; subst.
        specialize (Hhi h' eq_refl). simpl in Hhi. lia. }
    destruct (repeat_greedy p (pred lo) (option_map pred hi) (a ++ b) k);
      [discriminate | congruence].
Qed.

Lemma match_here_sound (r : regex) :
  forall (s : str) (k : str -> option A) x,
    match_here r s k = Some x ->
    exists a b, s = a ++ b /\ matches r a /\ k b = Some x.
Proof.
  induction r as [p | r1 IH1 r2 IH2 | r IH | p lo hi]; intros s k x H; simpl in H.
  - destruct s as [|c s]; [discriminate|].
    destruct (p c) eqn:Hp; [|discriminate].
    exists [c], s. repeat split; [now constructor | assumption].
  - apply IH1 in H. destruct H as (a1 & b1 & -> & M1 & H).
    apply IH2 in H. destruct H as (a2 & b2 & -> & M2 & H).
    exists (a1 ++ a2), b2. rewrite <- app_assoc.
    repeat split; [now constructor | assumption].
  - destruct (match_here r s k) as [y|] eqn:R.
    + inversion H; subst y. apply IH in R.
      destruct R as (a & b & -> & Ma & Hk).
      exists a, b. repeat split; [now apply matches_take | assumption].
    + exists [], s. repeat split; [apply matches_skip | assumption].
  - now apply repeat_greedy_sound.
Qed.

Lemma match_here_complete (r : regex) :
  forall (a b : str) (k : str -> option A),
    matches r a -> k b <> None -> match_here r (a ++ b) k <> None.
Proof.
  induction r as [p | r1 IH1 r2 IH2 | r IH | p lo hi]; intros a b k Ma Hk;
    inversion Ma; subst; simpl.
  - match goal with H : p _ = true |- _ => rewrite H end. assumption.
  - rewrite <- app_assoc. apply IH1; [assumption|]. now apply IH2.
  - destruct (match_here r b k); [discriminate | assumption].
  - specialize (IH a b k ltac:(assumption) Hk).
    destruct (match_here r (a ++ b) k); [discriminate | congruence].
  - now apply repeat_greedy_complete.
Qed.

End Matcher.

Lemma re_match_sound (r : regex) (s : str) (n : nat) :
  re_match r s = Some n ->
  exists a b, s = a ++ b /\ matches r a /\ n = length a.
Proof.
  unfold re_match. intros H. apply match_here_sound in H.
  destruct H as (a & b & -> & Ma & Hn).
  exists a, b. repeat split; [assumption|].
  inversion Hn. rewrite length_app. lia.
Qed.

Lemma re_match_complete (r : regex) (a b : str) :
  matches r a -> re_match r (a ++ b) <> None.
Proof.
  intros Ma. unfold re_match. now apply match_here_complete.
Qed.

(** [re.search] returns the leftmost match: a substring in the
    language, with no match starting before it. *)
Lemma search_from_sound (r : regex) (s : str) :
  forall pos m,
    search_from r pos s = Some m ->
    exists pre g post,
      s = pre ++ g ++ post /\
      m_start m = pos + length pre /\ m_end m = pos + length pre + length g /\
      matches r g /\
      (forall p1 p2, pre = p1 ++ p2 -> p2 <> [] ->
                     re_match r (p2 ++ g ++ post) = None).
Proof.
  induction s as [|c s IH]; intros pos m H; simpl in H.
  - destruct (re_match r []) as [n|] eqn:R; [|discriminate].
    inversion H; subst m. apply re_match_sound in R.
    destruct R as (a & b & Hs & Ma & ->).
    exists [], a, b. cbn [length app m_start m_end].
    repeat split; try assumption; try lia.
    intros p1 p2 Hp. destruct p1, p2; try discriminate. congruence.
  - destruct (re_match r (c :: s)) as [n|] eqn:R.
    + inversion H; subst m. apply re_match_sound in R.
      destruct R as (a & b & Hs & Ma & ->).
      exists [], a, b. cbn [length app m_start m_end].
      repeat split; try assumption; try lia.
      intros p1 p2 Hp. destruct p1, p2; try discriminate. congruence.
    + apply IH in H.
      destruct H as (pre & g & post & -> & Hst & Hen & Mg & Hleft).
      exists (c :: pre), g, post. cbn [length app].
      repeat split; try assumption; try lia.
      intros p1 p2 Hp Hne. destruct p1 as [|c1 p1].
      * simpl in Hp. subst p2. exact R.
      * inversion Hp; subst. now apply (Hleft p1 p2).
Qed.

Lemma search_from_complete (r : regex) (pre g post : str) :
  forall pos, matches r g -> search_from r pos (pre ++ g ++ post) <> None.
Proof.
  induction pre as [|c pre IH]; intros pos Mg.
  - cbn [app]. pose proof (re_match_complete post Mg) as R.
    destruct (g ++ post) as [|c s] eqn:E; simpl;
      destruct (re_match r _); congruence.
  - cbn [app search_from].
    destruct (re_match r (c :: pre ++ g ++ post)); [discriminate|].
    now apply IH.
Qed.

(** ** The amount pattern *)

Section Amount.
Context {ucd : UnicodeData}.

Lemma dot_no_digit : isdecimal 46%N = false.
Proof. reflexivity. Qed.

Lemma comma_no_digit : isdecimal 44%N = false.
Proof. reflexivity. Qed.

(** The pattern of the program and the pattern of the specification
    describe the same strings. *)
Lemma matches_amount_text (g : str) : matches amount_re g <-> amount_text g.
Proof.
  unfold amount_re, amount_text. split.
  - intros H. inversion H as [ |r1 r2 ds tail Hds Htail| | | ]; subst.
    inversion Hds as [ | | | |p lo hi a Hall Hlo Hhi]; subst.
    exists ds, tail. repeat split.
    + intros ->. simpl in Hlo. lia.
    + exact Hall.
    + inversion Htail as [ | |r|r a Hsf| ]; subst; [now left|].
      right. inversion Hsf as [ |r1 r2 sp fs Hsp Hfs| | | ]; subst.
      inversion Hsp as [p c Hc| | | | ]; subst.
      inversion Hfs as [ | | | |p lo hi a Hall' Hlo' Hhi']; subst.
      exists c, fs. repeat split; try assumption.
      * apply orb_prop in Hc. destruct Hc as [Hc|Hc]; apply N.eqb_eq in Hc; auto.
      * now apply Hhi'.
  - intros (ds & tail & -> & Hne & Hds & Htail).
    constructor.
    + constructor; [exact Hds | | discriminate].
      destruct ds; [congruence | simpl; lia].
    + destruct Htail as [->|(sep & fs & -> & Hsep & Hfs & Hlen)].
      * apply matches_skip.
      * apply matches_take. change (sep :: fs) with ([sep] ++ fs).
        constructor.
        -- constructor. destruct Hsep as [->| ->]; reflexivity.
        -- constructor; [exact Hfs | lia |].
           intros h Hh. inversion Hh. lia.
Qed.

Lemma digit_matches (c : cp) : isdecimal c = true -> matches amount_re [c].
Proof.
  intros Hc. apply matches_amount_text. exists [c], [].
  repeat split; [discriminate | now repeat constructor | now left].
Qed.

Lemma amount_text_has_digit (g : str) :
  amount_text g -> exists c g', g = c :: g' /\ isdecimal c = true.
Proof.
  intros (ds & tail & -> & Hne & Hds & _).
  destruct ds as [|c ds]; [congruence|].
  inversion Hds; subst. now exists c, (ds ++ tail).
Qed.

(** A text contains an amount as soon as it contains a digit. *)
Lemma contains_amount_digit (t : str) :
  contains_amount t <-> Exists (fun c => isdecimal c = true) t.
Proof.
  split.
  - intros (pre & g & post & -> & Hg).
    apply amount_text_has_digit in Hg. destruct Hg as (c & g' & -> & Hc).
    apply Exists_app. right. now constructor.
  - intros H. apply Exists_exists in H. destruct H as (c & Hin & Hc).
    apply in_split in Hin. destruct Hin as (pre & post & ->).
    exists pre, [c], post. split; [reflexivity|].
    apply matches_amount_text. now apply digit_matches.
Qed.

(** *** The value of a match *)

Lemma digits_value_number (ds : str) :
  digits ds ->
  forall acc,
    digits_value acc ds
    = Some (fold_left (fun a c => (10 * a + digit_of c)%N) ds acc).
Proof.
  induction 1 as [|c ds Hc _ IH]; intros acc; simpl; [reflexivity|].
  unfold isdecimal in Hc. unfold digit_of at 2.
  destruct (todecimal c); [apply IH | discriminate].
Qed.

Lemma digits_app (a b : str) : digits a -> digits b -> digits (a ++ b).
Proof. unfold digits. intros. apply Forall_app. now split. Qed.

Lemma digits_keep (c : cp) (new ds : str) :
  isdecimal c = false -> digits ds ->
  flat_map (fun x => if (x =? c)%N then new else [x]) ds = ds.
Proof.
  intros Hc. induction 1 as [|x ds Hx _ IH]; simpl; [reflexivity|].
  destruct (x =? c)%N eqn:E.
  - apply N.eqb_eq in E. congruence.
  - simpl. now rewrite IH.
Qed.

Lemma cut_digits (c : cp) (ds : str) :
  isdecimal c = false -> digits ds -> cut c ds = (ds, None).
Proof.
  intros Hc. induction 1 as [|x ds Hx _ IH]; simpl; [reflexivity|].
  destruct (x =? c)%N eqn:E.
  - apply N.eqb_eq in E. congruence.
  - now rewrite IH.
Qed.

Lemma cut_digits_sep (c : cp) (ds fs : str) :
  isdecimal c = false -> digits ds -> cut c (ds ++ c :: fs) = (ds, Some fs).
Proof.
  intros Hc. induction 1 as [|x ds Hx _ IH]; simpl.
  - now rewrite N.eqb_refl.
  - destruct (x =? c)%N eqn:E.
    + apply N.eqb_eq in E. congruence.
    + now rewrite IH.
Qed.

(** [float] never fails on a match of the amount pattern, and reads the
    amount the match denotes. *)
Lemma float_of_amount (g : str) :
  amount_text g ->
  exists n k,
    amount_denotes g n k /\
    py_float (replace (lit ",") (lit ".") (replace (lit ".") [] g))
    = Some (float_of_decimal n k).
Proof.
  intros (ds & tail & -> & Hne & Hds & Htail).
  change (lit ",") with [44%N]. change (lit ".") with [46%N].
  rewrite !replace_char.
  pose proof (fun new => digits_keep 46%N new dot_no_digit Hds) as Kd.
  pose proof (fun new => digits_keep 44%N new comma_no_digit Hds) as Kc.
  destruct Htail as [->|(sep & fs & -> & [->| ->] & Hfs & Hlen)];
    [| pose proof (digits_app Hds Hfs) as Hall;
       pose proof (fun new => digits_keep 46%N new dot_no_digit Hfs) as Fd;
       pose proof (fun new => digits_keep 44%N new comma_no_digit Hfs) as Fc;
       pose proof (fun new => digits_keep 44%N new comma_no_digit Hall) as Ac ..].
  - rewrite app_nil_r. exists (number ds), 0. split; [now constructor|].
    rewrite Kd, Kc.
    unfold py_float. rewrite (cut_digits 46%N dot_no_digit Hds).
    destruct ds as [|c ds]; [congruence|].
    rewrite digits_value_number by assumption. reflexivity.
  - exists (number (ds ++ fs)), 0. split; [now constructor|].
    rewrite flat_map_app. cbn [flat_map]. rewrite N.eqb_refl. cbn [app].
    rewrite Kd, Fd, Ac.
    unfold py_float. rewrite (cut_digits 46%N dot_no_digit Hall).
    destruct ds as [|c ds]; [congruence|]. cbn [app].
    change (c :: ds ++ fs) with ((c :: ds) ++ fs).
    rewrite digits_value_number by assumption. reflexivity.
  - exists (number (ds ++ fs)), (length fs). split; [now constructor|].
    rewrite flat_map_app. cbn [flat_map].
    change (44 =? 46)%N with false. cbn iota.
    rewrite Kd, Fd. cbn [app].
    rewrite flat_map_app. cbn [flat_map]. rewrite N.eqb_refl.
    rewrite Kc, Fc. cbn [app].
    unfold py_float. rewrite (cut_digits_sep 46%N fs dot_no_digit Hds).
    destruct ds as [|c ds]; [congruence|]. cbn [app].
    change (c :: ds ++ fs) with ((c :: ds) ++ fs).
    rewrite digits_value_number by assumption. reflexivity.
Qed.

(** *** What [re.search] finds *)

Lemma slice_middle (pre g post : str) :
  slice (pre ++ g ++ post) (length pre) (length pre + length g) = g.
Proof.
  unfold slice. rewrite skipn_app, skipn_all, Nat.sub_diag. cbn [app skipn].
  replace (length pre + length g - length pre) with (length g) by lia.
  rewrite firstn_app, firstn_all, Nat.sub_diag. cbn [firstn].
  apply app_nil_r.
Qed.

Lemma remainder_middle (pre g post : str) (m : Match) :
  m_start m = length pre -> m_end m = length pre + length g ->
  remainder (pre ++ g ++ post) m = pre ++ post.
Proof.
  intros Hs He. unfold remainder. rewrite Hs, He. f_equal.
  - rewrite firstn_app, firstn_all, Nat.sub_diag. cbn [firstn].
    apply app_nil_r.
  - rewrite skipn_app, skipn_all2 by lia.
    replace (length pre + length g - length pre) with (length g) by lia.
    cbn [app]. rewrite skipn_app, skipn_all, Nat.sub_diag. reflexivity.
Qed.

(** The match of the amount pattern is the first amount of the text:
    it has the shape of an amount and no digit stands before it. *)
Lemma search_amount (t : str) (m : Match) :
  re_search amount_re t = Some m ->
  exists pre g post,
    t = pre ++ g ++ post /\
    m_start m = length pre /\ m_end m = length pre + length g /\
    group1 t m = g /\ remainder t m = pre ++ post /\
    amount_text g /\ Forall (fun c => isdecimal c = false) pre.
Proof.
  intros H. apply search_from_sound in H.
  destruct H as (pre & g & post & -> & Hs & He & Mg & Hleft).
  simpl in Hs, He. exists pre, g, post. repeat split; try assumption.
  - unfold group1. rewrite Hs, He. apply slice_middle.
  - now apply remainder_middle.
  - now apply matches_amount_text.
  - apply Forall_forall. intros c Hin.
    apply in_split in Hin. destruct Hin as (p1 & p2 & ->).
    destruct (isdecimal c) eqn:Hc; [exfalso | reflexivity].
    apply (@re_match_complete amount_re [c] (p2 ++ g ++ post)
             (digit_matches c Hc)).
    rewrite <- (Hleft p1 (c :: p2)); [reflexivity | reflexivity | discriminate].
Qed.

Lemma search_amount_none (t : str) :
  re_search amount_re t = None <-> ~ contains_amount t.
Proof.
  split.
  - intros H (pre & g & post & -> & Hg).
    apply matches_amount_text in Hg.
    now apply (search_from_complete pre post 0 Hg).
  - intros H. destruct (re_search amount_re t) as [m|] eqn:E; [|reflexivity].
    exfalso. apply H. apply search_amount in E.
    destruct E as (pre & g & post & -> & _ & _ & _ & _ & Hg & _).
    now exists pre, g, post.
Qed.

End Amount.

(** ** Collapsing whitespace *)

Lemma repeat_greedy_star (A : Type) (p : cp -> bool) (k : str -> option A) :
  (forall x, k x <> None) ->
  forall s, exists l, s = l ++ (skipn (length l) s) /\
                      repeat_greedy p 0 None s k = k (skipn (length l) s) /\
                      Forall (fun c => p c = true) l /\
                      match skipn (length l) s with
                      | [] => True
                      | c :: _ => p c = false
                      end.
Proof.
  intros Hk. induction s as [|c s IH].
  - exists []. simpl. repeat split; constructor.
  - destruct (p c) eqn:Hc.
    + destruct IH as (l & Hs & Hr & Hl & Hnext).
      exists (c :: l). cbn [length skipn app repeat_greedy].
      rewrite Hc. cbn [andb below option_map pred]. rewrite Hr.
      repeat split.
      * congruence.
      * destruct (k (skipn (length l) s)) eqn:E; [reflexivity|].
        now apply Hk in E.
      * now constructor.
      * exact Hnext.
    + exists []. cbn [length skipn app repeat_greedy]. rewrite Hc.
      repeat split; try reflexivity; try assumption; constructor.
Qed.

Lemma lstrip_unique (l x : str) :
  spaces l -> match x with [] => True | c :: _ => isspace c = false end ->
  lstrip (l ++ x) = x.
Proof.
  intros Hl Hx. rewrite lstrip_spaces by assumption.
  destruct x as [|c x]; [reflexivity|]. simpl. now rewrite Hx.
Qed.

Lemma sub_from_skipn (r : regex) (repl : str) (k : nat) (s : str) :
  sub_from r repl k s = sub_from r repl 0 (skipn k s).
Proof.
  revert k. induction s as [|c s IH]; intros k.
  - destruct k; reflexivity.
  - destruct k as [|k]; [reflexivity|]. simpl skipn.
    rewrite <- IH. reflexivity.
Qed.

(** A run of whitespace becomes the replacement, once. *)
Lemma re_sub_spaces_run (repl : str) (c : cp) (s : str) :
  isspace c = true ->
  re_sub spaces_re repl (c :: s) = repl ++ re_sub spaces_re repl (lstrip s).
Proof.
  intros Hc. unfold re_sub. cbn [sub_from].
  unfold re_match, spaces_re. cbn [match_here repeat_greedy].
  rewrite Hc. cbn [andb below option_map pred].
  set (k := fun rest : str => Some (length (c :: s) - length rest)).
  assert (Hk : forall x, k x <> None) by (intros x; unfold k; discriminate).
  destruct (repeat_greedy_star isspace k Hk s) as (l & Hs & Hr & Hl & Hnext).
  unfold k in *. clear k Hk.
  rewrite Hr.
  assert (Hstrip : lstrip s = skipn (length l) s).
  { rewrite Hs at 1. now apply lstrip_unique. }
  assert (Hlen : length (c :: s) - length (skipn (length l) s) = S (length l)).
  { rewrite length_skipn. cbn [length].
    assert (length l <= length s).
    { rewrite Hs at 1. rewrite length_app. lia. }
    lia. }
  rewrite Hlen. f_equal.
  rewrite sub_from_skipn. now rewrite Hstrip.
Qed.

Lemma re_sub_spaces_keep (repl : str) (c : cp) (s : str) :
  isspace c = false ->
  re_sub spaces_re repl (c :: s) = c :: re_sub spaces_re repl s.
Proof.
  intros Hc. unfold re_sub. cbn [sub_from].
  unfold re_match, spaces_re. cbn [match_here repeat_greedy].
  rewrite Hc. reflexivity.
Qed.

Lemma length_lstrip (s : str) : length (lstrip s) <= length s.
Proof.
  destruct (lstrip_cut s) as (l & Hs & _).
  rewrite Hs at 2. rewrite length_app. lia.
Qed.

(** Collapsing the whitespace of a string does not change its
    tokens. *)
Lemma split_from_re_sub (s : str) :
  forall cur,
    split_from cur (re_sub spaces_re (lit " ") s) = split_from cur s.
Proof.
  remember (length s) as n eqn:Hn. revert s Hn.
  induction n as [n IH] using lt_wf_ind. intros s Hn cur.
  destruct s as [|c s]; [reflexivity|].
  destruct (isspace c) eqn:Hc.
  - rewrite re_sub_spaces_run by assumption.
    change (lit " ") with [32%N]. cbn [app split_from].
    change (isspace 32%N) with true. cbv iota. rewrite Hc.
    assert (E : split_from [] (re_sub spaces_re [32%N] (lstrip s))
                = split_from [] s).
    { change [32%N] with (lit " ").
      rewrite (IH (length (lstrip s))); [apply split_lstrip | | reflexivity].
      subst n. simpl. pose proof (length_lstrip s). lia. }
    destruct cur; rewrite E; reflexivity.
  - rewrite re_sub_spaces_keep by assumption. cbn [split_from]. rewrite Hc.
    apply (IH (length s)); [subst n; simpl; lia | reflexivity].
Qed.

Lemma split_collapsed (s : str) :
  split (strip (re_sub spaces_re (lit " ") (strip s))) = split s.
Proof.
  rewrite split_strip. unfold split at 1. rewrite split_from_re_sub.
  apply split_strip.
Qed.

(** ** The parser *)

Section ParserFacts.
Context {ucd : UnicodeData}.

Lemma parse_expense_normalized (text : str) :
  parse_expense text = parse_normalized (normalize text).
Proof. reflexivity. Qed.

(** Where the text has an amount the parser succeeds: the value is the
    float of the amount, the fields come from the tokens around it. *)
Lemma parse_normalized_found (t : str) (m : Match) :
  re_search amount_re t = Some m ->
  exists n k,
    amount_denotes (group1 t m) n k /\
    py_float (replace (lit ",") (lit ".") (replace (lit ".") [] (group1 t m)))
    = Some (float_of_decimal n k) /\
    parse_normalized t
    = fields (float_of_decimal n k) (split (remainder t m)).
Proof.
  intros H. pose proof H as S. apply search_amount in S.
  destruct S as (pre & g & post & Ht & _ & _ & Hg & Hrem & Hamount & _).
  destruct (float_of_amount Hamount) as (n & k & Hden & Hfloat).
  exists n, k. rewrite Hg. repeat split; try assumption.
  unfold parse_normalized. rewrite H. rewrite Hg, Hfloat.
  fold (remainder t m). rewrite split_collapsed. reflexivity.
Qed.

Lemma parse_normalized_none (t : str) :
  parse_normalized t = None <-> re_search amount_re t = None.
Proof.
  split.
  - intros H. destruct (re_search amount_re t) as [m|] eqn:E; [|reflexivity].
    pose proof E as F. apply parse_normalized_found in F.
    destruct F as (n & k & _ & _ & Hp).
    rewrite Hp in H. unfold fields in H.
    destruct (2 <=? _); [discriminate|]. destruct (_ =? 1); discriminate.
  - intros H. unfold parse_normalized. now rewrite H.
Qed.


End ParserFacts.

(** A marker that a removal puts together stays in the text: each
    [replace] takes out the occurrences of its own input. *)
Lemma markers_can_remain :
  @normalize latin1_data (lit "rreais$ 5 a b") = lit "r$ 5 a b" /\
  @parse_expense latin1_data (lit "rreais$ 5 a b")
  = Some (float_of_decimal 5 0, lit "r$ a", lit "b").
Proof. split; vm_compute; reflexivity. Qed.

(** ** The handler *)

Section HandlerFacts.
Context {ucd : UnicodeData}.
Variable w : World.

Lemma send_message_run (chat_id : json) (text : str) (reply_to : json)
    (tr : trace) :
  send_message w chat_id text reply_to tr
  = (telegram_sendMessage w (reply_payload chat_id text reply_to),
     tr ++ [SendMessage (reply_payload chat_id text reply_to)]).
Proof.
  unfold send_message, reply_payload, call.
  destruct (truthy reply_to); reflexivity.
Qed.

Lemma add_row_run (value : float) (desc conta original : str) (tr : trace) :
  add_row w value desc conta original tr
  = (sheets_append_row w
       [strftime (utcnow w); format_2f value; desc; conta; original],
     tr ++ [AppendRow [strftime (utcnow w); format_2f value; desc; conta;
                       original]]).
Proof. reflexivity. Qed.

(** The handler, by the message it finds and the branch it takes. *)
Lemma webhook_view (request_json : json) (tr : trace) :
  webhook w request_json tr =
  match message_of request_json with
  | Raise e => (Raise e, tr)
  | Return message =>
      if truthy message then
        match chat_id_of message with
        | Raise e => (Raise e, tr)
        | Return chat_id =>
            match py_get message (lit "message_id") JNull with
            | Raise e => (Raise e, tr)
            | Return msg_id =>
                match file_id_of message with
                | Raise e => (Raise e, tr)
                | Return file_id =>
                    if truthy file_id
                    then audio_branch w chat_id msg_id file_id tr
                    else
                      match text_of message with
                      | Raise e => (Raise e, tr)
                      | Return text => text_branch w chat_id msg_id text tr
                      end
                end
            end
        end
      else (Return ack, tr)
  end.
Proof.
  unfold webhook, message_of, chat_id_of, file_id_of, text_of,
    text_branch, audio_branch, bind, lift, ret.
  destruct (py_get (py_or request_json (JObj [])) (lit "message") JNull)
    as [m|e]; [|reflexivity].
  destruct (truthy m) eqn:Tm; cbv beta iota.
  - rewrite Tm. cbn [negb].
    destruct (py_get m (lit "chat") (JObj [])) as [chat|e]; [|reflexivity].
    destruct (py_get chat (lit "id") JNull) as [chat_id|e]; [|reflexivity].
    destruct (py_get m (lit "message_id") JNull) as [msg_id|e];
      [|reflexivity].
    destruct (py_contains (lit "voice") m).
    + destruct (py_item m (lit "voice")) as [voice|e]; [|reflexivity].
      destruct (py_get voice (lit "file_id") JNull) as [fid|e]; [|reflexivity].
      destruct (truthy fid); cbn [negb]; [reflexivity|].
      destruct (py_get m (lit "text") JNull) as [t|e]; [|reflexivity].
      destruct (py_strip (py_or t (JStr []))); reflexivity.
    + destruct (py_contains (lit "audio") m).
      * destruct (py_item m (lit "audio")) as [audio|e]; [|reflexivity].
        destruct (py_get audio (lit "file_id") JNull) as [fid|e]; [|reflexivity].
        destruct (truthy fid); cbn [negb]; [reflexivity|].
        destruct (py_get m (lit "text") JNull) as [t|e]; [|reflexivity].
        destruct (py_strip (py_or t (JStr []))); reflexivity.
      * change (truthy JNull) with false. cbn [negb].
        destruct (py_get m (lit "text") JNull) as [t|e]; [|reflexivity].
        destruct (py_strip (py_or t (JStr []))); reflexivity.
  - destruct (py_get (py_or request_json (JObj [])) (lit "edited_message") JNull)
      as [m'|e]; [|reflexivity].
    cbv beta iota.
    destruct (truthy m'); cbn [negb]; [|reflexivity].
    destruct (py_get m' (lit "chat") (JObj [])) as [chat|e]; [|reflexivity].
    destruct (py_get chat (lit "id") JNull) as [chat_id|e]; [|reflexivity].
    destruct (py_get m' (lit "message_id") JNull) as [msg_id|e];
      [|reflexivity].
    destruct (py_contains (lit "voice") m').
    + destruct (py_item m' (lit "voice")) as [voice|e]; [|reflexivity].
      destruct (py_get voice (lit "file_id") JNull) as [fid|e]; [|reflexivity].
      destruct (truthy fid); cbn [negb]; [reflexivity|].
      destruct (py_get m' (lit "text") JNull) as [t|e]; [|reflexivity].
      destruct (py_strip (py_or t (JStr []))); reflexivity.
    + destruct (py_contains (lit "audio") m').
      * destruct (py_item m' (lit "audio")) as [audio|e]; [|reflexivity].
        destruct (py_get audio (lit "file_id") JNull) as [fid|e]; [|reflexivity].
        destruct (truthy fid); cbn [negb]; [reflexivity|].
        destruct (py_get m' (lit "text") JNull) as [t|e]; [|reflexivity].
        destruct (py_strip (py_or t (JStr []))); reflexivity.
      * change (truthy JNull) with false. cbn [negb].
        destruct (py_get m' (lit "text") JNull) as [t|e]; [|reflexivity].
        destruct (py_strip (py_or t (JStr []))); reflexivity.
Qed.

(** *** Every return of the handler is the acknowledgment *)

Lemma only_ack_ret : only_ack (ret ack).
Proof. intros tr r tr' H. inversion H. reflexivity. Qed.

Lemma only_ack_bind (A : Type) (c : M A) (f : A -> M response) :
  (forall a, only_ack (f a)) -> only_ack (bind c f).
Proof.
  intros Hf tr r tr' H. unfold bind in H.
  destruct (c tr) as [[a|e] tr1]; [|discriminate].
  now apply (Hf a tr1 r tr').
Qed.

Ltac prove_only_ack :=
  repeat match goal with
         | |- only_ack (bind _ _) => apply only_ack_bind; intros
         | |- only_ack (ret ack) => apply only_ack_ret
         | |- only_ack (if ?b then _ else _) => destruct b
         | |- only_ack (match ?x with _ => _ end) => destruct x
         end.

Lemma webhook_only_ack (request_json : json) :
  only_ack (webhook w request_json).
Proof. unfold webhook. prove_only_ack. Qed.

(** *** With collaborators that answer, the handler returns *)

Lemma py_strip_or_total (t : json) :
  match t with JStr _ => true | _ => negb (truthy t) end = true ->
  exists text, py_strip (py_or t (JStr [])) = Return text.
Proof.
  intros H. unfold py_or.
  destruct t as [|b|z|x|s|l|o]; try apply negb_true_iff in H;
    try rewrite H; try (cbn; eauto; fail).
  destruct s; cbn; eauto.
Qed.

Lemma text_branch_returns (chat_id msg_id : json) (text : str) :
  dependable w -> returns_ack (text_branch w chat_id msg_id text).
Proof.
  intros (_ & _ & _ & Hrow & Hsend) tr. unfold text_branch.
  destruct text as [|c text]; [now exists tr|].
  destruct (parse_expense (c :: text)) as [[[value desc] conta]|];
    unfold bind, ret.
  - rewrite add_row_run, Hrow, send_message_run, Hsend. eauto.
  - rewrite send_message_run, Hsend. eauto.
Qed.

Lemma audio_branch_returns (chat_id msg_id file_id : json) :
  dependable w -> returns_ack (audio_branch w chat_id msg_id file_id).
Proof.
  intros (Hfile & Hload & Hmodel & Hrow & Hsend) tr.
  unfold audio_branch, transcribe_ogg_to_text, bind, ret, lift, call.
  destruct (Hfile file_id) as (info & -> & Hinfo).
  destruct info as [| | | | | |items]; try discriminate Hinfo.
  cbn [py_get]. fold (field (lit "ok") items).
  unfold file_info_shaped in Hinfo.
  destruct (truthy (field (lit "ok") items)); cbn [negb orb] in *.
  2:{ rewrite send_message_run, Hsend. eauto. }
  cbn [py_item].
  destruct (lookup (lit "result") items) as [res|]; [|discriminate].
  destruct res as [| | | | | |res]; try discriminate Hinfo.
  cbn [py_item].
  destruct (lookup (lit "file_path") res) as [path|]; [|discriminate].
  destruct (Hload path) as (content & ->).
  destruct (Hmodel content) as (result & -> & Hres).
  destruct result as [| | | | | |result]; try discriminate Hres.
  cbn [py_get]. unfold transcript_shaped in Hres.
  assert (Htext : exists text,
             py_strip (py_or match lookup (lit "text") result with
                             | Some v => v
                             | None => JNull
                             end (JStr [])) = Return text).
  { destruct (lookup (lit "text") result) as [t|]; [|cbn; eauto].
    apply py_strip_or_total. destruct t; exact Hres. }
  destruct Htext as (text & ->).
  destruct text as [|c text].
  - rewrite send_message_run, Hsend. eauto.
  - destruct (parse_expense (c :: text)) as [[[value desc] conta]|].
    + rewrite add_row_run, Hrow, send_message_run, Hsend. eauto.
    + rewrite send_message_run, Hsend. eauto.
Qed.

Lemma shaped_update_message (request_json : json) :
  update_shaped request_json = true ->
  exists message,
    message_of request_json = Return message /\
    message_shaped message = true.
Proof.
  unfold update_shaped, message_of.
  destruct (py_or request_json (JObj [])) as [| | | | | |u]; try discriminate.
  cbn [py_get]. fold (field (lit "message") u).
  fold (field (lit "edited_message") u).
  intros H. apply andb_prop in H. destruct H as [H1 H2].
  destruct (truthy (field (lit "message") u)); [eauto|].
  cbn [orb] in H2. eauto.
Qed.

Lemma shaped_message_fields (message : json) :
  message_shaped message = true -> truthy message = true ->
  (exists chat_id, chat_id_of message = Return chat_id) /\
  (exists msg_id, py_get message (lit "message_id") JNull = Return msg_id) /\
  (exists file_id, file_id_of message = Return file_id) /\
  (exists text, text_of message = Return text).
Proof.
  intros Hs Ht.
  destruct message as [| | | | | |msg];
    try (cbn [message_shaped] in Hs; rewrite Ht in Hs; discriminate Hs).
  cbn [message_shaped] in Hs.
  apply andb_prop in Hs. destruct Hs as [Hs Htext].
  apply andb_prop in Hs. destruct Hs as [Hs Haudio].
  apply andb_prop in Hs. destruct Hs as [Hchat Hvoice].
  repeat split.
  - unfold chat_id_of. cbn [py_get].
    destruct (lookup (lit "chat") msg) as [chat|]; [|cbn; eauto].
    destruct chat; try discriminate Hchat. cbn [py_get]. eauto.
  - cbn [py_get]. eauto.
  - unfold file_id_of. cbn [py_contains py_item].
    destruct (lookup (lit "voice") msg) as [voice|].
    + destruct voice; try discriminate Hvoice. cbn [py_get]. eauto.
    + destruct (lookup (lit "audio") msg) as [audio|]; [|eauto].
      destruct audio; try discriminate Haudio. cbn [py_get]. eauto.
  - unfold text_of. cbn [py_get].
    destruct (lookup (lit "text") msg) as [t|]; [|cbn; eauto].
    apply py_strip_or_total. destruct t; exact Htext.
Qed.

Lemma webhook_returns (request_json : json) :
  dependable w -> update_shaped request_json = true ->
  returns_ack (webhook w request_json).
Proof.
  intros Hw Hu tr. rewrite webhook_view.
  destruct (shaped_update_message _ Hu) as (message & -> & Hm).
  destruct (truthy message) eqn:Ht; [|eauto].
  destruct (shaped_message_fields _ Hm Ht)
    as ((chat_id & ->) & (msg_id & ->) & (file_id & ->) & (text & ->)).
  destruct (truthy file_id).
  - now apply audio_branch_returns.
  - now apply text_branch_returns.
Qed.

End HandlerFacts.

(** ** The normalisation, step by step *)





Section Erasure.
Variables (o : cp) (old' : str).
Hypothesis fresh : ~ In o old'.







End Erasure.


(** ** The claims about the parser *)

Section ParserClaims.
Context {ucd : UnicodeData}.

Lemma delete_dots_replace (s : str) : replace (lit ".") [] s = delete_dots s.
Proof.
  change (lit ".") with [46%N]. rewrite replace_char. unfold delete_dots.
  induction s as [|c s IH]; [reflexivity|]. simpl.
  destruct (c =? 46)%N; simpl; now rewrite IH.
Qed.

Lemma comma_to_dot_replace (s : str) :
  replace (lit ",") (lit ".") s = comma_to_dot s.
Proof.
  change (lit ",") with [44%N]. change (lit ".") with [46%N].
  rewrite replace_char. unfold comma_to_dot.
  induction s as [|c s IH]; [reflexivity|]. simpl.
  destruct (c =? 44)%N; simpl; now rewrite IH.
Qed.

Lemma fields_some (value : float) (parts : list str) :
  exists desc conta, fields value parts = Some (value, desc, conta).
Proof.
  unfold fields. destruct (2 <=? length parts); [eauto|].
  destruct (length parts =? 1); eauto.
Qed.


(** C2. The matched text is converted by deleting every dot, then
    turning every comma into a dot, and the result is read as a number;
    so a match [32.90] gives 3290, which is not 32.90. *)
Theorem amount_conversion :
  (forall (text : str) (m : Match),
      re_search amount_re (normalize text) = Some m ->
      exists value desc conta,
        parse_expense text = Some (value, desc, conta) /\
        py_float (comma_to_dot (delete_dots (group1 (normalize text) m)))
        = Some value /\
        (group1 (normalize text) m = lit "32.90" ->
         value = float_of_decimal 3290 0)) /\
  float_of_decimal 3290 0 <> float_of_decimal 3290 2 /\
  parse_expense (lit "32.90 padaria nubank")
  = Some (float_of_decimal 3290 0, lit "padaria", lit "nubank").
Proof.
  split; [|split; [vm_compute; discriminate | vm_compute; reflexivity]].
  intros text m E.
  pose proof E as F. apply parse_normalized_found in F.
  destruct F as (n & k & _ & Hfloat & Hp).
  destruct (fields_some (float_of_decimal n k)
              (split (remainder (normalize text) m))) as (desc & conta & Hf).
  exists (float_of_decimal n k), desc, conta.
  rewrite delete_dots_replace, comma_to_dot_replace in Hfloat.
  repeat split.
  - now rewrite parse_expense_normalized, Hp.
  - exact Hfloat.
  - intros Hg. rewrite Hg in Hfloat.
    assert (H3290 : py_float (comma_to_dot (delete_dots (lit "32.90")))
                    = Some (float_of_decimal 3290 0))
      by (vm_compute; reflexivity).
    congruence.
Qed.


(** C6. The parser fails exactly when the normalised text contains no
    substring of the amount pattern; [parse("no numbers here")]
    fails. *)
Theorem parse_fails_iff_no_amount :
  (forall text : str,
      parse_expense text = None <-> ~ contains_amount (normalize text)) /\
  parse_expense (lit "no numbers here") = None.
Proof.
  split; [|vm_compute; reflexivity].
  intros text. rewrite parse_expense_normalized, parse_normalized_none.
  apply search_amount_none.
Qed.




End ParserClaims.

(** ** Substrings *)

Lemma infix_inner (pre a post : str) : infix a (pre ++ a ++ post).
Proof. now exists pre, post. Qed.

Lemma infixb_complete (a s : str) : infix a s -> infixb a s = true.
Proof.
  intros (pre & post & ->). induction pre as [|c pre IH].
  - cbn [app]. destruct (a ++ post) eqn:E; simpl; rewrite <- E;
      now rewrite startswith_app.
  - cbn [app infixb]. rewrite IH. apply orb_true_r.
Qed.

(** ** Traces only grow *)

Lemma extends_ret (A : Type) (a : A) : extends (ret a).
Proof. intros tr. exists []. simpl. now rewrite app_nil_r. Qed.

Lemma extends_lift (A : Type) (r : result A) : extends (lift r).
Proof. intros tr. exists []. simpl. now rewrite app_nil_r. Qed.

Lemma extends_call (A : Type) (ev : event) (r : result A) :
  extends (call ev r).
Proof. intros tr. now exists [ev]. Qed.

Lemma extends_bind (A B : Type) (c : M A) (f : A -> M B) :
  extends c -> (forall a, extends (f a)) -> extends (bind c f).
Proof.
  intros Hc Hf tr. unfold bind. destruct (Hc tr) as (added & Hadd).
  destruct (c tr) as [[a|e] tr1]; simpl in Hadd; subst tr1.
  - destruct (Hf a (tr ++ added)) as (more & Hmore).
    exists (added ++ more). now rewrite Hmore, app_assoc.
  - now exists added.
Qed.

Ltac prove_extends :=
  repeat match goal with
         | |- extends (bind _ _) => apply extends_bind; [|intros]
         | |- extends (ret _) => apply extends_ret
         | |- extends (lift _) => apply extends_lift
         | |- extends (call _ _) => apply extends_call
         | |- extends (send_message _ _ _ _) => unfold send_message
         | |- extends (add_row _ _ _ _ _) => unfold add_row
         | |- extends (transcribe_ogg_to_text _ _) =>
             unfold transcribe_ogg_to_text
         | |- extends (if ?b then _ else _) => destruct b
         | |- extends (match ?x with _ => _ end) => destruct x
         end.

(** ** The claims about the handler *)

Section HandlerClaims.
Context {ucd : UnicodeData}.

Lemma text_branch_failure (w : World) (chat_id msg_id : json) (text : str)
    (tr : trace) :
  text <> [] -> parse_expense text = None ->
  snd (text_branch w chat_id msg_id text tr)
  = tr ++ [SendMessage (reply_payload chat_id msg_not_understood msg_id)].
Proof.
  intros Hne Hp. unfold text_branch.
  destruct text as [|c text]; [congruence|].
  rewrite Hp. unfold bind, ret. rewrite send_message_run.
  destruct (telegram_sendMessage w _); reflexivity.
Qed.

Lemma audio_branch_failure (w : World) (chat_id msg_id file_id file_path : json)
    (content : list N) (text : str) (tr : trace) :
  transcribed w file_id file_path content text ->
  text <> [] -> parse_expense text = None ->
  snd (audio_branch w chat_id msg_id file_id tr)
  = tr ++ [GetFile file_id; Download file_path; Transcribe content;
           SendMessage
             (reply_payload chat_id (msg_transcript_not_understood text)
                msg_id)].
Proof.
  intros (info & ok & res & result & t & Hfile & Hok & Tok & Hres & Hpath
          & Hload & Hmodel & Htext & Hstrip) Hne Hp.
  unfold audio_branch, transcribe_ogg_to_text, bind, lift, call, ret.
  rewrite Hfile, Hok, Tok. cbn [negb]. rewrite Hres, Hpath, Hload, Hmodel.
  rewrite Htext, Hstrip.
  destruct text as [|c text]; [congruence|].
  rewrite Hp, send_message_run. rewrite <- !app_assoc. cbn [app].
  destruct (telegram_sendMessage w _); reflexivity.
Qed.

Lemma audio_branch_starts (w : World) (chat_id msg_id file_id : json)
    (tr : trace) :
  exists rest,
    snd (audio_branch w chat_id msg_id file_id tr)
    = tr ++ GetFile file_id :: rest.
Proof.
  unfold audio_branch. unfold bind at 1. unfold call at 1.
  destruct (telegram_getFile w file_id) as [info|e]; [|now exists []].
  match goal with
  | |- exists rest, snd (?f (tr ++ [GetFile file_id])) = _ =>
      assert (E : extends f) by prove_extends;
      destruct (E (tr ++ [GetFile file_id])) as (added & Hadd)
  end.
  exists added. rewrite Hadd, <- app_assoc. reflexivity.
Qed.

(** C3, amended.  When the parser fails on a transcript, the reply
    carries the transcript and a usage example; when it fails on a text
    message, the reply carries the usage example only.  In both cases
    the reply is the last call the handler makes and no row is written
    to the ledger. *)
Theorem parse_failure_reply :
  (forall (w : World) (request_json chat_id msg_id : json) (text : str)
          (tr : trace),
      text_update request_json chat_id msg_id text ->
      text <> [] -> parse_expense text = None ->
      exists added,
        snd (webhook w request_json tr) = tr ++ added /\
        added = [SendMessage (reply_payload chat_id msg_not_understood msg_id)] /\
        infix usage_example msg_not_understood /\
        no_row added) /\
  (forall (w : World) (request_json chat_id msg_id file_id file_path : json)
          (content : list N) (text : str) (tr : trace),
      audio_update request_json chat_id msg_id file_id ->
      transcribed w file_id file_path content text ->
      text <> [] -> parse_expense text = None ->
      exists added,
        snd (webhook w request_json tr) = tr ++ added /\
        added = [GetFile file_id; Download file_path; Transcribe content;
                 SendMessage
                   (reply_payload chat_id
                      (msg_transcript_not_understood text) msg_id)] /\
        infix text (msg_transcript_not_understood text) /\
        infix usage_example (msg_transcript_not_understood text) /\
        no_row added).
Proof.
  split.
  - intros w req chat_id msg_id text tr
      (message & fid & Hm & Tm & Hc & Hi & Hf & Tf & Ht) Hne Hp.
    eexists. split; [|split; [reflexivity|split]].
    + rewrite webhook_view, Hm, Tm, Hc, Hi, Hf, Tf, Ht.
      now apply text_branch_failure.
    + unfold msg_not_understood. rewrite !app_assoc.
      rewrite <- (app_nil_r usage_example) at 2. rewrite <- !app_assoc.
      rewrite (app_assoc (lit "N")). rewrite (app_assoc (lit "N" ++ _)).
      apply infix_inner.
    + intros row [H|[]]. discriminate H.
  - intros w req chat_id msg_id file_id file_path content text tr
      (message & Hm & Tm & Hc & Hi & Hf & Tf) Htr Hne Hp.
    eexists. split; [|split; [reflexivity|split; [|split]]].
    + rewrite webhook_view, Hm, Tm, Hc, Hi, Hf, Tf.
      now apply audio_branch_failure.
    + unfold msg_transcript_not_understood, transcript_header.
      rewrite <- !app_assoc.
      rewrite (app_assoc (lit "Transcri")).
      rewrite (app_assoc (lit "Transcri" ++ _)).
      apply infix_inner.
    + unfold msg_transcript_not_understood.
      rewrite <- (app_nil_r usage_example) at 2.
      rewrite (app_assoc (transcript_header text)).
      rewrite (app_assoc (transcript_header text ++ _)).
      rewrite (app_assoc ((transcript_header text ++ _) ++ _)).
      apply infix_inner.
    + intros row [H|[H|[H|[H|[]]]]]; discriminate H.
Qed.

(** C4, amended.  The acknowledgment is the only thing the handler
    returns: a call either returns it or ends in an exception of a
    collaborator or of a malformed payload.  On an update of the shape
    Telegram sends, with collaborators that answer, it returns the
    acknowledgment. *)
Theorem webhook_acknowledges :
  (forall (w : World) (request_json : json) (tr tr' : trace) (r : response),
      webhook w request_json tr = (Return r, tr') -> r = ack) /\
  (forall (w : World) (request_json : json) (tr : trace),
      dependable w -> update_shaped request_json = true ->
      exists tr', webhook w request_json tr = (Return ack, tr')).
Proof.
  split.
  - intros w req tr tr' r H. now apply (@webhook_only_ack _ w req tr r tr').
  - intros w req tr Hw Hu. now apply webhook_returns.
Qed.

Lemma lookup_nonempty (k : str) (items : list (str * json)) (v : json) :
  lookup k items = Some v -> truthy (JObj items) = true.
Proof. destruct items; [discriminate | reflexivity]. Qed.

Lemma carried_file_id (msg : list (str * json)) :
  carries_attachment msg ->
  exists fid, file_id_of (JObj msg) = Return fid /\ truthy fid = true.
Proof.
  unfold file_id_of. cbn [py_contains py_item].
  intros [(v & fid & Hv & Hf & Tf)|(Hv & a & fid & Ha & Hf & Tf)].
  - rewrite Hv. cbn [py_get]. rewrite Hf. eauto.
  - rewrite Hv, Ha. cbn [py_get]. rewrite Hf. eauto.
Qed.

Lemma same_but_text_views (msg msg' : list (str * json)) :
  same_but_text msg msg' ->
  chat_id_of (JObj msg) = chat_id_of (JObj msg') /\
  py_get (JObj msg) (lit "message_id") JNull
  = py_get (JObj msg') (lit "message_id") JNull /\
  file_id_of (JObj msg) = file_id_of (JObj msg').
Proof.
  intros H. unfold chat_id_of, file_id_of.
  cbn [py_get py_contains py_item].
  rewrite <- (H (lit "chat")) by discriminate.
  rewrite <- (H (lit "message_id")) by discriminate.
  rewrite <- (H (lit "voice")) by discriminate.
  rewrite <- (H (lit "audio")) by discriminate.
  repeat split.
Qed.

(** C10, amended.  A message whose selected attachment has a
    [file_id], its voice when it has the key [voice] and its audio
    only when it has no such key, goes down the audio path whatever
    its text field holds: the handler does the same, call for call and
    result for result, on any two updates whose messages differ in the
    text field only, and its first call is [getFile] for the
    attachment. *)
Theorem attachment_precedes_text
    (w : World) (request_json request_json' : json)
    (msg msg' : list (str * json)) (tr : trace) :
  message_of request_json = Return (JObj msg) ->
  message_of request_json' = Return (JObj msg') ->
  same_but_text msg msg' ->
  carries_attachment msg ->
  webhook w request_json tr = webhook w request_json' tr /\
  exists file_id,
    file_id_of (JObj msg) = Return file_id /\ truthy file_id = true /\
    forall chat_id,
      chat_id_of (JObj msg) = Return chat_id ->
      exists rest,
        snd (webhook w request_json tr) = tr ++ GetFile file_id :: rest.
Proof.
  intros Hm Hm' Hsame Hatt.
  destruct (carried_file_id Hatt) as (fid & Hf & Tf).
  destruct (same_but_text_views Hsame) as (Ec & Ei & Ef).
  assert (Tm : truthy (JObj msg) = true).
  { destruct Hatt as [(v & _ & Hv & _)|(_ & a & _ & Ha & _)];
      eapply lookup_nonempty; eassumption. }
  assert (Tm' : truthy (JObj msg') = true).
  { destruct msg' as [|kv msg']; [|reflexivity]. exfalso.
    rewrite Hf in Ef. cbn in Ef.
    inversion Ef; subst. discriminate Tf. }
  split.
  - rewrite !webhook_view, Hm, Hm', Tm, Tm', <- Ec, <- Ei, <- Ef, Hf, Tf.
    reflexivity.
  - exists fid. repeat split; try assumption.
    intros chat_id Hc. rewrite webhook_view, Hm, Tm, Hc.
    cbn [py_get]. rewrite Hf, Tf. apply audio_branch_starts.
Qed.

(** C7, at the input where the code leaves the claim.  An amount of
    309 digits overflows the float to infinity, and the row written for
    it holds [inf] where the claim has a number with two decimals. *)
Theorem huge_amount_row :
  parse_expense huge_amount = Some (S754_infinity false, lit "a", lit "b") /\
  webhook calm_world (text_message huge_amount) []
  = (Return ack,
     [AppendRow [lit "2024-03-09 12:00:05 UTC"; lit "inf"; lit "a"; lit "b";
                 huge_amount];
      SendMessage
        (reply_payload (JInt 42)
           (lit "Lan" ++ [231%N] ++ lit "ado " ++ [9989%N]
              ++ lit " R$ inf | a | b")
           (JInt 7))]).
Proof. split; vm_compute; reflexivity. Qed.

End HandlerClaims.

(** ** The value column *)

(** The floats of the parser are zero, positive and finite, or plus
    infinity: never negative, never a NaN. *)

Lemma shr_1_nonneg (mrs : shr_record) :
  (0 <= shr_m mrs)%Z -> (0 <= shr_m (shr_1 mrs))%Z.
Proof.
  destruct mrs as [m r s]. simpl.
  destruct m as [|[p|p|]|[p|p|]]; simpl; lia.
Qed.

Lemma iter_shr_1_nonneg (n : positive) :
  forall mrs, (0 <= shr_m mrs)%Z -> (0 <= shr_m (iter_pos shr_1 n mrs))%Z.
Proof.
  induction n as [n IH|n IH|]; intros mrs H; simpl.
  - apply IH, IH. now apply shr_1_nonneg.
  - now apply IH, IH.
  - now apply shr_1_nonneg.
Qed.

Lemma shr_fexp_nonneg (prec emax m e : Z) (l : location) :
  (0 <= m)%Z -> (0 <= shr_m (fst (shr_fexp prec emax m e l)))%Z.
Proof.
  intros H. unfold shr_fexp, shr.
  assert (H0 : (0 <= shr_m (shr_record_of_loc m l))%Z).
  { destruct l as [|[ | | ]]; exact H. }
  destruct (fexp prec emax (Zdigits2 m + e) - e)%Z; simpl; try assumption.
  now apply iter_shr_1_nonneg.
Qed.

Lemma round_nearest_even_nonneg (m : Z) (l : location) :
  (0 <= m)%Z -> (0 <= round_nearest_even m l)%Z.
Proof.
  intros H. destruct l as [|[ | | ]]; simpl; try lia.
  destruct (Z.even m); lia.
Qed.

Lemma binary_round_aux_cases (prec emax m e : Z) (l : location) :
  (0 <= m)%Z ->
  binary_round_aux prec emax false m e l = S754_zero false \/
  (exists m' e', binary_round_aux prec emax false m e l
                 = S754_finite false m' e') \/
  binary_round_aux prec emax false m e l = S754_infinity false.
Proof.
  intros H. unfold binary_round_aux.
  pose proof (shr_fexp_nonneg prec emax e l H) as H1.
  destruct (shr_fexp prec emax m e l) as [mrs' e'].
  cbn [fst] in H1.
  pose proof (shr_fexp_nonneg prec emax e' loc_Exact
                (round_nearest_even_nonneg (loc_of_shr_record mrs') H1)) as H2.
  destruct (shr_fexp prec emax
              (round_nearest_even (shr_m mrs') (loc_of_shr_record mrs')) e'
              loc_Exact) as [mrs'' e''].
  cbn [fst] in H2.
  destruct (shr_m mrs'') as [|p|p]; [now left | | lia].
  destruct (e'' <=? emax - prec)%Z; [right; left; eauto | now right; right].
Qed.

Lemma float_of_decimal_cases (n : N) (k : nat) :
  float_of_decimal n k = S754_zero false \/
  (exists m e, float_of_decimal n k = S754_finite false m e) \/
  float_of_decimal n k = S754_infinity false.
Proof.
  unfold float_of_decimal. destruct n as [|p]; [now left|].
  unfold SFdiv, SFdiv_core_binary.
  set (m' := match _ with Z0 => Z.pos p | Z.pos _ => _ | Z.neg _ => 0%Z end).
  assert (Hm' : (0 <= m')%Z).
  { unfold m'. destruct (_ - _ - _)%Z; try lia.
    apply Z.shiftl_nonneg. lia. }
  pose proof (Z_div_mod m' (Z.pos (pow10 k)) ltac:(lia)) as Hdiv.
  destruct (Z.div_eucl m' (Z.pos (pow10 k))) as [q r].
  cbn [xorb]. apply binary_round_aux_cases.
  destruct Hdiv as [Hq Hr]. nia.
Qed.

(** *** Two decimals *)



Lemma uint_str_digits (d : Decimal.uint) : Forall ascii_digit (uint_str d).
Proof.
  induction d; simpl; constructor; try assumption; unfold ascii_digit; lia.
Qed.

Lemma N_str_nonempty (n : N) : N_str n <> [].
Proof.
  unfold N_str. destruct n as [|p]; [discriminate|]. simpl.
  pose proof (DecimalPos.Unsigned.to_uint_nonnil p) as H.
  destruct (Pos.to_uint p); [congruence | discriminate ..].
Qed.

Lemma hundredths_two_decimals (c : N) :
  two_decimals
    (N_str (c / 100) ++ lit "."
       ++ [(48 + (c mod 100) / 10)%N; (48 + c mod 10)%N]).
Proof.
  exists (N_str (c / 100)), (48 + (c mod 100) / 10)%N, (48 + c mod 10)%N.
  split; [reflexivity|]. split; [apply N_str_nonempty|].
  split; [apply uint_str_digits|]. unfold ascii_digit.
  assert (H100 : (c mod 100 < 100)%N) by (apply N.mod_lt; discriminate).
  assert (Ha : ((c mod 100) / 10 < 10)%N)
    by (apply N.Div0.div_lt_upper_bound; exact H100).
  assert (Hb : (c mod 10 < 10)%N) by (apply N.mod_lt; discriminate).
  revert Ha Hb. generalize ((c mod 100) / 10)%N (c mod 10)%N.
  intros a b Ha Hb. clear H100. lia.
Qed.

(** A float of the parser that is not infinite is written with two
    decimals. *)
Lemma format_2f_two_decimals (n : N) (k : nat) :
  float_of_decimal n k <> S754_infinity false ->
  two_decimals (format_2f (float_of_decimal n k)).
Proof.
  intros Hfin.
  destruct (float_of_decimal_cases n k) as [E|[(m & e & E)|E]];
    [| |contradiction]; rewrite E.
  - exists [48%N], 48%N, 48%N. unfold ascii_digit.
    split; [reflexivity|]. split; [discriminate|].
    split; [constructor; [cbv beta; lia | constructor] | lia].
  - cbn [format_2f sign_str app]. apply hundredths_two_decimals.
Qed.

(** *** The timestamp *)

Lemma forallb_below (P : N -> bool) (k : N) :
  forallb P (map N.of_nat (seq 0 (N.to_nat k))) = true ->
  forall n, (n < k)%N -> P n = true.
Proof.
  intros H n Hn. rewrite forallb_forall in H. apply H.
  apply in_map_iff. exists (N.to_nat n). split; [apply N2Nat.id|].
  apply in_seq. lia.
Qed.


Lemma all_ascii_digits_app (a b : str) :
  all_ascii_digits (a ++ b) = all_ascii_digits a && all_ascii_digits b.
Proof. apply forallb_app. Qed.

Lemma pad2_shape (n : N) :
  (n < 100)%N -> length (pad2 n) = 2 /\ all_ascii_digits (pad2 n) = true.
Proof.
  intros Hn.
  assert (H : ((length (pad2 n) =? 2) && all_ascii_digits (pad2 n)) = true).
  { apply (@forallb_below
             (fun n => (length (pad2 n) =? 2) && all_ascii_digits (pad2 n))
             100%N); [vm_compute; reflexivity | exact Hn]. }
  apply andb_prop in H. destruct H as [H1 H2].
  apply Nat.eqb_eq in H1. now split.
Qed.

Lemma year_shape (n : N) :
  (1000 <= n <= 9999)%N ->
  length (N_str n) = 4 /\ all_ascii_digits (N_str n) = true.
Proof.
  intros Hn.
  assert (H : ((n <? 1000)%N
               || (length (N_str n) =? 4) && all_ascii_digits (N_str n)) = true).
  { apply (@forallb_below
             (fun n => (n <? 1000)%N
                       || (length (N_str n) =? 4) && all_ascii_digits (N_str n))
             10000%N); [vm_compute; reflexivity | lia]. }
  apply orb_prop in H. destruct H as [H|H].
  - apply N.ltb_lt in H. lia.
  - apply andb_prop in H. destruct H as [H1 H2].
    apply Nat.eqb_eq in H1. now split.
Qed.



Lemma strftime_shape (d : datetime) :
  calendar d -> timestamp_shape (strftime d).
Proof.
  intros (Hy & Hmo & Hd & Hh & Hmi & Hs).
  destruct (year_shape Hy) as [Ly Dy].
  destruct (@pad2_shape (month d) ltac:(lia)) as [Lmo Dmo].
  destruct (@pad2_shape (day d) ltac:(lia)) as [Ld Dd].
  destruct (@pad2_shape (hour d) ltac:(lia)) as [Lh Dh].
  destruct (@pad2_shape (minute d) ltac:(lia)) as [Lmi Dmi].
  destruct (@pad2_shape (second d) ltac:(lia)) as [Ls Ds].
  exists (N_str (year d)), (pad2 (month d)), (pad2 (day d)), (pad2 (hour d)),
    (pad2 (minute d)), (pad2 (second d)).
  repeat split; try assumption; try reflexivity.
  rewrite !all_ascii_digits_app.
  now rewrite Dy, Dmo, Dd, Dh, Dmi, Ds.
Qed.

(** *** The row *)

Section Row.
Context {ucd : UnicodeData}.

(** X1. [add_row] makes one call, the append of one row of five columns:
    the timestamp, the value, the description, the account, the
    original text.  With a clock of the calendar the timestamp reads
    "YYYY-MM-DD HH:MM:SS UTC"; and the value of a parsed expense is
    written with two decimals unless it has overflowed to infinity. *)
Theorem add_row_appends_one_row (w : World) (text : str)
    (value : float) (desc conta : str) (tr : trace) :
  calendar (utcnow w) ->
  parse_expense text = Some (value, desc, conta) ->
  exists stamp amount,
    snd (add_row w value desc conta text tr)
    = tr ++ [AppendRow [stamp; amount; desc; conta; text]] /\
    stamp = strftime (utcnow w) /\ timestamp_shape stamp /\
    amount = format_2f value /\
    (value <> S754_infinity false -> two_decimals amount) /\
    (value = S754_infinity false -> amount = lit "inf").
Proof.
  intros Hclock Hp. exists (strftime (utcnow w)), (format_2f value).
  repeat split.
  - now apply strftime_shape.
  - intros Hfin. rewrite parse_expense_normalized in Hp.
    destruct (re_search amount_re (normalize text)) as [m|] eqn:E.
    + pose proof E as F. apply parse_normalized_found in F.
      destruct F as (n & k & _ & _ & Hf). rewrite Hf in Hp.
      destruct (fields_some (float_of_decimal n k)
                  (split (remainder (normalize text) m)))
        as (d' & c' & Hfs).
      rewrite Hfs in Hp. injection Hp as <- _ _.
      now apply format_2f_two_decimals.
    + apply parse_normalized_none in E. congruence.
  - intros ->. reflexivity.
Qed.

End Row.

(** ** More about the parser *)

(** *** Tokens and fields *)

Lemma split_from_word (p : str) :
  Forall (fun c => isspace c = false) p ->
  forall cur rest, split_from cur (p ++ rest) = split_from (rev p ++ cur) rest.
Proof.
  induction 1 as [|c p Hc _ IH]; intros cur rest; [reflexivity|].
  cbn [app split_from]. rewrite Hc, IH. cbn [rev]. now rewrite <- app_assoc.
Qed.

Lemma split_token (p : str) : token p -> split p = [p].
Proof.
  intros [Hne Hp]. unfold split. rewrite <- (app_nil_r p) at 1.
  rewrite split_from_word by assumption. cbn [split_from].
  rewrite app_nil_r. destruct (rev p) eqn:E.
  - apply (f_equal (@rev cp)) in E. rewrite rev_involutive in E.
    simpl in E. congruence.
  - rewrite <- E, rev_involutive. reflexivity.
Qed.

Lemma split_join_tokens (ps : list str) :
  Forall token ps -> split (join (lit " ") ps) = ps.
Proof.
  induction 1 as [|p ps Hp Hps IH]; [reflexivity|].
  destruct ps as [|q ps]; [now apply split_token|].
  change (join (lit " ") (p :: q :: ps))
    with (p ++ lit " " ++ join (lit " ") (q :: ps)).
  destruct Hp as [Hne Hp]. unfold split.
  rewrite split_from_word by assumption. rewrite app_nil_r.
  change (lit " ") with [32%N]. cbn [app split_from].
  change (isspace 32%N) with true. cbv iota.
  destruct (rev p) eqn:E.
  - apply (f_equal (@rev cp)) in E. rewrite rev_involutive in E.
    simpl in E. congruence.
  - rewrite <- E, rev_involutive. f_equal. exact IH.
Qed.

Lemma split_from_tokens (s : str) :
  forall cur, Forall (fun c => isspace c = false) cur ->
              Forall token (split_from cur s).
Proof.
  induction s as [|c s IH]; intros cur Hcur; cbn [split_from].
  - destruct cur as [|x cur]; constructor; [|constructor].
    split.
    + intros E. apply (f_equal (@rev cp)) in E.
      rewrite rev_involutive in E. discriminate.
    + now apply Forall_rev.
  - destruct (isspace c) eqn:Hc.
    + destruct cur as [|x cur]; [apply IH; constructor|].
      constructor; [|apply IH; constructor].
      split.
      * intros E. apply (f_equal (@rev cp)) in E.
        rewrite rev_involutive in E. discriminate.
      * now apply Forall_rev.
    + apply IH. now constructor.
Qed.

Lemma split_tokens (s : str) : Forall token (split s).
Proof. apply split_from_tokens. constructor. Qed.

Lemma fields_keep_tokens (value : float) (parts : list str)
    (v : float) (desc conta : str) :
  Forall token parts ->
  fields value parts = Some (v, desc, conta) ->
  v = value /\ split desc ++ split conta = parts /\
  (conta = [] \/ token conta) /\ desc = join (lit " ") (split desc).
Proof.
  intros Hparts. unfold fields.
  destruct (2 <=? length parts) eqn:L2.
  - intros H. injection H as <- <- <-. apply Nat.leb_le in L2.
    assert (Hne : parts <> []) by (intros ->; simpl in L2; lia).
    pose proof (app_removelast_last [] Hne) as Hsplit.
    pose proof Hparts as Hall. rewrite Hsplit in Hall.
    apply Forall_app in Hall. destruct Hall as [Hinit Hlast].
    inversion Hlast as [|x l Htok _]; subst.
    pose proof (split_join_tokens Hinit) as R1.
    pose proof (split_token Htok) as R2.
    split; [reflexivity|]. split; [|split; [now right|]].
    + etransitivity; [|symmetry; exact Hsplit].
      apply f_equal2; assumption.
    + apply (f_equal (join (lit " "))). symmetry. exact R1.
  - destruct (length parts =? 1) eqn:L1.
    + intros H. injection H as <- <- <-. apply Nat.eqb_eq in L1.
      destruct parts as [|p [|q parts]]; try discriminate.
      inversion Hparts as [|x l Htok _]; subst. cbn [hd].
      pose proof (split_token Htok) as R.
      split; [reflexivity|]. split; [|split; [now left|]].
      * etransitivity; [apply f_equal2; [exact R | reflexivity]|].
        reflexivity.
      * apply (f_equal (join (lit " "))) in R. symmetry. exact R.
    + intros H. injection H as <- <- <-.
      apply Nat.leb_gt in L2. apply Nat.eqb_neq in L1.
      destruct parts as [|p parts]; [|simpl in *; lia].
      repeat split; auto.
Qed.

Section ParserMore.
Context {ucd : UnicodeData}.

(** X2. The description and the account keep the tokens of the text around
    the amount, all of them and in their order: splitting the two
    fields gives the tokens back.  The account is empty or one token,
    and the description is its own tokens joined by single spaces. *)
Theorem fields_resplit (text : str) (value : float) (desc conta : str) :
  parse_expense text = Some (value, desc, conta) ->
  exists m,
    re_search amount_re (normalize text) = Some m /\
    split desc ++ split conta = split (remainder (normalize text) m) /\
    (conta = [] \/ token conta) /\
    desc = join (lit " ") (split desc).
Proof.
  intros Hp. rewrite parse_expense_normalized in Hp.
  destruct (re_search amount_re (normalize text)) as [m|] eqn:E.
  2:{ apply parse_normalized_none in E. congruence. }
  exists m. split; [reflexivity|].
  pose proof E as F. apply parse_normalized_found in F.
  destruct F as (n & k & _ & _ & Hf). rewrite Hf in Hp.
  destruct (fields_keep_tokens _ (split_tokens _) Hp) as (_ & H1 & H2 & H3).
  auto.
Qed.

(** X3. The value of a parsed expense is zero, a positive finite number or
    plus infinity: never negative, never a NaN. *)
Theorem parsed_value_sign (text : str) (value : float) (desc conta : str) :
  parse_expense text = Some (value, desc, conta) ->
  value = S754_zero false \/
  (exists m e, value = S754_finite false m e) \/
  value = S754_infinity false.
Proof.
  intros Hp. rewrite parse_expense_normalized in Hp.
  destruct (re_search amount_re (normalize text)) as [m|] eqn:E.
  2:{ apply parse_normalized_none in E. congruence. }
  pose proof E as F. apply parse_normalized_found in F.
  destruct F as (n & k & _ & _ & Hf). rewrite Hf in Hp.
  destruct (fields_some (float_of_decimal n k)
              (split (remainder (normalize text) m))) as (d & c & Hfs).
  rewrite Hfs in Hp. injection Hp as <- _ _.
  apply float_of_decimal_cases.
Qed.

(** X4. [float] accepts the cleaned text of every match: the [except]
    branch of the parser is never taken. *)
Theorem float_accepts_every_match (text : str) (m : Match) :
  re_search amount_re (normalize text) = Some m ->
  py_float
    (replace (lit ",") (lit ".")
       (replace (lit ".") [] (group1 (normalize text) m)))
  <> None.
Proof.
  intros E. apply parse_normalized_found in E.
  destruct E as (n & k & _ & Hfloat & _). rewrite Hfloat. discriminate.
Qed.

End ParserMore.

(** *** The match is greedy *)

Lemma search_from_at (r : regex) (s : str) :
  forall pos m,
    search_from r pos s = Some m ->
    exists pre rest n,
      s = pre ++ rest /\ m_start m = pos + length pre /\
      m_end m = pos + length pre + n /\ re_match r rest = Some n.
Proof.
  induction s as [|c s IH]; intros pos m H; simpl in H.
  - destruct (re_match r []) as [n|] eqn:R; [|discriminate].
    injection H as <-. exists [], [], n. cbn. repeat split; auto; lia.
  - destruct (re_match r (c :: s)) as [n|] eqn:R.
    + injection H as <-. exists [], (c :: s), n. cbn. repeat split; auto; lia.
    + apply IH in H. destruct H as (pre & rest & n & -> & Hs & He & Hm).
      exists (c :: pre), rest, n. cbn [length app].
      repeat split; auto; lia.
Qed.

Lemma same_prefix (a a' b b' : str) :
  a ++ b = a' ++ b' -> length a = length a' -> a = a'.
Proof.
  revert a'. induction a as [|x a IH]; intros [|x' a'] H L;
    try discriminate; [reflexivity|].
  injection H as -> H. injection L as L. f_equal. now apply IH.
Qed.

Section Greedy.
Context {ucd : UnicodeData}.

Lemma fraction_steps (A : Type) (k : str -> option A) (rest : str) :
  (forall x, k x <> None) ->
  match_here
    (Optional (Seq (Class (fun c => (c =? 46) || (c =? 44))%N)
                   (Repeat isdecimal 1 (Some 2)))) rest k
  = match rest with
    | x :: y :: r2 =>
        if is_sep x && isdecimal y
        then match r2 with
             | z :: r3 => if isdecimal z then k r3 else k r2
             | [] => k r2
             end
        else k rest
    | _ => k rest
    end.
Proof.
  intros Hk. cbn [match_here].
  destruct rest as [|x [|y r2]]; cbn [repeat_greedy]; try reflexivity.
  - fold (is_sep x). destruct (is_sep x); reflexivity.
  - fold (is_sep x). destruct (is_sep x); cbn [andb]; [|reflexivity].
    destruct (isdecimal y); cbn [andb below option_map pred]; [|reflexivity].
    destruct r2 as [|z r3]; cbn [repeat_greedy].
    + destruct (k []) eqn:E; [reflexivity | now apply Hk in E].
    + destruct (isdecimal z); cbn [andb below option_map pred].
      * assert (E : repeat_greedy isdecimal 0 (Some 0) r3 k = k r3).
        { destruct r3 as [|u r4]; cbn [repeat_greedy]; [reflexivity|].
          cbn [below]. now rewrite andb_false_r. }
        rewrite E. destruct (k r3) eqn:E3; [reflexivity | now apply Hk in E3].
      * destruct (k (z :: r3)) eqn:E; [reflexivity | now apply Hk in E].
Qed.

(** What the matcher takes at a position: all the digits there, and a
    separator with two digits, or with one when no second follows. *)
Lemma re_match_amount_shape (s : str) (n : nat) :
  re_match amount_re s = Some n ->
  exists ds tail post,
    s = ds ++ tail ++ post /\ n = length ds + length tail /\
    ds <> [] /\ digits ds /\
    ((tail = [] /\ no_digit_ahead post /\ no_fraction_ahead post) \/
     (exists sep d1,
         tail = [sep; d1] /\ is_sep sep = true /\ isdecimal d1 = true /\
         no_digit_ahead post) \/
     (exists sep d1 d2,
         tail = [sep; d1; d2] /\ is_sep sep = true /\
         isdecimal d1 = true /\ isdecimal d2 = true)).
Proof.
  unfold re_match.
  set (k0 := fun rest : str => Some (length s - length rest)).
  set (F := Optional (Seq (Class (fun c => (c =? 46) || (c =? 44))%N)
                          (Repeat isdecimal 1 (Some 2)))).
  change (match_here amount_re s k0)
    with (repeat_greedy isdecimal 1 None s (fun s1 => match_here F s1 k0)).
  assert (Hk0 : forall x, k0 x <> None) by (intros x; unfold k0; discriminate).
  assert (Hk1 : forall x, match_here F x k0 <> None).
  { intros x. unfold F. rewrite fraction_steps by assumption.
    destruct x as [|a [|b [|c x]]]; try apply Hk0;
      destruct (is_sep a && isdecimal b); try apply Hk0.
    destruct (isdecimal c); apply Hk0. }
  destruct s as [|c s']; [discriminate|].
  cbn [repeat_greedy]. destruct (isdecimal c) eqn:Hc; [|discriminate].
  cbn [andb below option_map pred].
  destruct (repeat_greedy_star isdecimal (fun x => match_here F x k0) Hk1 s')
    as (l & Hs' & Hr & Hl & Hnext).
  rewrite Hr. set (rest := skipn (length l) s') in *.
  destruct (match_here F rest k0) as [n'|] eqn:E; [|now apply Hk1 in E].
  intros H. injection H as <-.
  unfold F in E. rewrite fraction_steps in E by assumption.
  assert (Hlen : length (c :: s') = S (length l) + length rest).
  { rewrite Hs' at 1. cbn [length]. rewrite length_app. lia. }
  assert (Hds : digits (c :: l)) by (constructor; assumption).
  assert (Fin : forall tail post,
             s' = l ++ tail ++ post ->
             length rest = length tail + length post ->
             forall P : Prop, P ->
             exists ds tail' post',
               c :: s' = ds ++ tail' ++ post' /\
               length (c :: s') - length post = length ds + length tail' /\
               ds <> [] /\ digits ds /\ (tail' = tail /\ post' = post /\ P)).
  { intros tail post E1 E2 P HP. exists (c :: l), tail, post.
    split; [cbn [app]; now f_equal|].
    split; [cbn [length] in *; lia|].
    split; [discriminate|]. split; [assumption|]. auto. }
  destruct rest as [|x [|y r2]] eqn:Erest.
  - unfold k0 in E. injection E as <-.
    destruct (Fin [] [] Hs' eq_refl True I)
      as (ds & tail & post & H1 & H2 & H3 & H4 & -> & -> & _).
    exists ds, [], []. repeat split; try assumption. left. repeat split.
  - unfold k0 in E. injection E as <-.
    destruct (Fin [] [x] Hs' eq_refl True I)
      as (ds & tail & post & H1 & H2 & H3 & H4 & -> & -> & _).
    exists ds, [], [x]. repeat split; try assumption.
    left. repeat split. exact Hnext.
  - destruct (is_sep x && isdecimal y) eqn:Hxy.
    + apply andb_prop in Hxy. destruct Hxy as [Hx Hy].
      destruct r2 as [|z r3].
      * unfold k0 in E. injection E as <-.
        destruct (Fin [x; y] [] Hs' eq_refl True I)
          as (ds & tail & post & H1 & H2 & H3 & H4 & -> & -> & _).
        exists ds, [x; y], []. repeat split; try assumption.
        right. left. exists x, y. repeat split; assumption.
      * destruct (isdecimal z) eqn:Hz.
        -- unfold k0 in E. injection E as <-.
           destruct (Fin [x; y; z] r3 Hs' eq_refl True I)
             as (ds & tail & post & H1 & H2 & H3 & H4 & -> & -> & _).
           exists ds, [x; y; z], r3. repeat split; try assumption.
           right. right. exists x, y, z. repeat split; assumption.
        -- unfold k0 in E. injection E as <-.
           destruct (Fin [x; y] (z :: r3) Hs' eq_refl True I)
             as (ds & tail & post & H1 & H2 & H3 & H4 & -> & -> & _).
           exists ds, [x; y], (z :: r3). repeat split; try assumption.
           right. left. exists x, y. repeat split; assumption.
    + unfold k0 in E. injection E as <-.
      destruct (Fin [] (x :: y :: r2) Hs' eq_refl True I)
        as (ds & tail & post & H1 & H2 & H3 & H4 & -> & -> & _).
      exists ds, [], (x :: y :: r2). repeat split; try assumption.
      left. repeat split; [exact Hnext | exact Hxy].
Qed.

(** X5. The amount the parser reads is greedy: it starts at the first
    digit of the text, takes every digit that follows, and a separator
    with two digits, or with one digit when no second follows it.
    After an amount without decimals the text goes on with neither a
    digit nor a separator and a digit. *)
Theorem amount_is_greedy (t : str) (m : Match) :
  re_search amount_re t = Some m ->
  exists pre ds tail post,
    t = pre ++ ds ++ tail ++ post /\
    m_start m = length pre /\
    m_end m = length pre + length ds + length tail /\
    Forall (fun c => isdecimal c = false) pre /\
    ds <> [] /\ digits ds /\
    ((tail = [] /\ no_digit_ahead post /\ no_fraction_ahead post) \/
     (exists sep d1,
         tail = [sep; d1] /\ is_sep sep = true /\ isdecimal d1 = true /\
         no_digit_ahead post) \/
     (exists sep d1 d2,
         tail = [sep; d1; d2] /\ is_sep sep = true /\
         isdecimal d1 = true /\ isdecimal d2 = true)).
Proof.
  intros H. pose proof H as S. apply search_amount in S.
  destruct S as (pre' & g & post' & Ht' & Hs' & _ & _ & _ & _ & Hpre').
  unfold re_search in H. apply search_from_at in H.
  destruct H as (pre & rest & n & Ht & Hs & He & Hm).
  apply re_match_amount_shape in Hm.
  destruct Hm as (ds & tail & post & -> & -> & Hne & Hds & Hshape).
  cbn in Hs, He.
  assert (pre = pre').
  { rewrite Ht in Ht'. apply (same_prefix _ _ _ _ Ht'). lia. }
  subst pre'. exists pre, ds, tail, post.
  repeat split; try assumption. lia.
Qed.

End Greedy.

(** *** The characters of the fields *)

Section Kept.
Variable P : cp -> Prop.

Lemma lstrip_keeps (s : str) : Forall P s -> Forall P (lstrip s).
Proof.
  induction 1 as [|c s Hc Hs IH]; simpl; [constructor|].
  destruct (isspace c); [assumption | now constructor].
Qed.

Lemma strip_keeps (s : str) : Forall P s -> Forall P (strip s).
Proof.
  intros H. unfold strip, rstrip.
  apply Forall_rev, lstrip_keeps, Forall_rev, lstrip_keeps, H.
Qed.

Lemma replace_from_keeps (old : str) (s : str) :
  Forall P s -> forall k, Forall P (replace_from old [] k s).
Proof.
  induction 1 as [|c s Hc Hs IH]; intros k; cbn [replace_from];
    [constructor|].
  destruct k; [|apply IH].
  destruct (startswith old (c :: s)); [apply IH|].
  constructor; [assumption | apply IH].
Qed.

Lemma delete_keeps (old s : str) :
  old <> [] -> Forall P s -> Forall P (replace old [] s).
Proof.
  intros Hne H. destruct old; [congruence|].
  now apply replace_from_keeps.
Qed.

Lemma firstn_keeps (n : nat) (s : str) : Forall P s -> Forall P (firstn n s).
Proof.
  intros H. revert n. induction H as [|c s Hc Hs IH]; intros [|n]; simpl;
    constructor; auto.
Qed.

Lemma skipn_keeps (n : nat) (s : str) : Forall P s -> Forall P (skipn n s).
Proof.
  intros H. revert n. induction H as [|c s Hc Hs IH]; intros [|n]; simpl;
    auto.
Qed.

Lemma split_from_keeps (s : str) :
  Forall P s -> forall cur, Forall P cur ->
  Forall (Forall P) (split_from cur s).
Proof.
  induction 1 as [|c s Hc Hs IH]; intros cur Hcur; cbn [split_from].
  - destruct cur; constructor; [now apply Forall_rev | constructor].
  - destruct (isspace c).
    + destruct cur; [apply IH; constructor|].
      constructor; [now apply Forall_rev | apply IH; constructor].
    + apply IH. now constructor.
Qed.

Lemma join_keeps (sep : str) (ps : list str) :
  Forall P sep -> Forall (Forall P) ps -> Forall P (join sep ps).
Proof.
  intros Hsep. induction 1 as [|p ps Hp Hps IH]; [constructor|].
  destruct ps as [|q ps]; [assumption|].
  change (join sep (p :: q :: ps)) with (p ++ sep ++ join sep (q :: ps)).
  apply Forall_app. split; [assumption|].
  apply Forall_app. now split.
Qed.

Lemma fields_keep (value v : float) (parts : list str) (desc conta : str) :
  P 32%N -> Forall (Forall P) parts ->
  fields value parts = Some (v, desc, conta) ->
  Forall P desc /\ Forall P conta.
Proof.
  intros Hsp Hparts. unfold fields.
  destruct (2 <=? length parts) eqn:L2.
  - intros H. injection H as _ <- <-. apply Nat.leb_le in L2.
    assert (Hne : parts <> []) by (intros ->; simpl in L2; lia).
    pose proof Hparts as Hall.
    rewrite (app_removelast_last [] Hne) in Hall.
    apply Forall_app in Hall. destruct Hall as [Hinit Hlast].
    inversion Hlast; subst. split; [|assumption].
    apply join_keeps; [|assumption]. repeat constructor. exact Hsp.
  - destruct (length parts =? 1).
    + intros H. injection H as _ <- <-. split; [|constructor].
      destruct Hparts; [constructor | assumption].
    + intros H. injection H as _ <- <-. split; constructor.
Qed.

End Kept.

Lemma ascii_lower_small (c : cp) : ascii_capital (ascii_lower c) = false.
Proof.
  unfold ascii_lower, ascii_capital.
  destruct ((65 <=? c) && (c <=? 90))%N eqn:E; [|exact E].
  apply andb_true_iff in E. destruct E as [E1 E2].
  apply N.leb_le in E1, E2. apply andb_false_iff. right.
  apply N.leb_gt. lia.
Qed.

Lemma ascii_lower_ascii (c : cp) : isascii c = true -> isascii (ascii_lower c) = true.
Proof.
  unfold ascii_lower, isascii. intros H. apply N.ltb_lt in H.
  destruct ((65 <=? c) && (c <=? 90))%N eqn:E; apply N.ltb_lt; [|exact H].
  apply andb_true_iff in E. destruct E as [E1 E2].
  apply N.leb_le in E1, E2. lia.
Qed.

Lemma ascii_lower_twice (c : cp) : ascii_lower (ascii_lower c) = ascii_lower c.
Proof.
  pose proof (ascii_lower_small c) as H.
  unfold ascii_lower at 1. unfold ascii_capital in H. now rewrite H.
Qed.

Section LowerCase.
Context {ucd : UnicodeData}.

Lemma lower_ascii (text : str) :
  forallb isascii text = true -> lower text = map ascii_lower text.
Proof. intros H. unfold lower. now rewrite H. Qed.

Lemma lower_lower_ascii (text : str) :
  forallb isascii text = true -> lower (lower text) = lower text.
Proof.
  intros H. rewrite (lower_ascii _ H).
  assert (H' : forallb isascii (map ascii_lower text) = true).
  { rewrite forallb_forall in *. intros c Hin.
    apply in_map_iff in Hin. destruct Hin as (x & <- & Hx).
    apply ascii_lower_ascii. now apply H. }
  rewrite (lower_ascii _ H'). rewrite map_map.
  apply map_ext. intros c. apply ascii_lower_twice.
Qed.

(** X6. On an ASCII text the parser does not tell capital from small
    letters: the lower-cased text parses to the same result, and no
    capital letter reaches the description or the account. *)
Theorem parser_lower_cases (text : str) :
  forallb isascii text = true ->
  parse_expense (lower text) = parse_expense text /\
  forall value desc conta,
    parse_expense text = Some (value, desc, conta) ->
    Forall (fun c => ascii_capital c = false) (desc ++ conta).
Proof.
  intros H. split.
  - unfold parse_expense. now rewrite (lower_lower_ascii _ H).
  - intros value desc conta Hp. rewrite parse_expense_normalized in Hp.
    set (P := fun c : cp => ascii_capital c = false).
    assert (Hn : Forall P (normalize text)).
    { unfold normalize. apply strip_keeps.
      apply delete_keeps; [discriminate|].
      apply delete_keeps; [discriminate|].
      apply strip_keeps. rewrite (lower_ascii _ H).
      apply Forall_forall. intros c Hin. apply in_map_iff in Hin.
      destruct Hin as (x & <- & _). apply ascii_lower_small. }
    destruct (re_search amount_re (normalize text)) as [m|] eqn:E.
    2:{ apply parse_normalized_none in E. congruence. }
    pose proof E as F. apply parse_normalized_found in F.
    destruct F as (n & k & _ & _ & Hf). rewrite Hf in Hp.
    apply Forall_app.
    apply (@fields_keep P _ _ _ _ _ eq_refl) in Hp; [exact Hp|].
    apply split_from_keeps; [|constructor].
    unfold remainder. apply Forall_app. split.
    + now apply firstn_keeps.
    + now apply skipn_keeps.
Qed.

End LowerCase.

(** *** A digit makes an expense *)

Section Found.
Variable P : cp -> Prop.

Lemma lstrip_finds (s : str) :
  (forall c, P c -> isspace c = false) -> Exists P s -> Exists P (lstrip s).
Proof.
  intros HP. induction 1 as [c s Hc|c s Hs IH]; cbn [lstrip].
  - rewrite (HP c Hc). now constructor.
  - destruct (isspace c); [exact IH | now constructor 2].
Qed.

Lemma strip_finds (s : str) :
  (forall c, P c -> isspace c = false) -> Exists P s -> Exists P (strip s).
Proof.
  intros HP H. unfold strip, rstrip.
  apply Exists_rev, (lstrip_finds HP), Exists_rev, (lstrip_finds HP), H.
Qed.

Lemma replace_from_finds (o : cp) (old : str) :
  Forall (fun c => ~ P c) (o :: old) ->
  forall s k,
    Forall (fun c => ~ P c) (firstn k s) -> Exists P s ->
    Exists P (replace_from (o :: old) [] k s).
Proof.
  intros Hold. induction s as [|c s IH]; intros k Hk H;
    [inversion H|]. cbn [replace_from].
  assert (Tail : ~ P c -> Exists P s).
  { intros Hc. inversion H; subst; [contradiction | assumption]. }
  destruct k as [|k].
  - destruct (startswith (o :: old) (c :: s)) eqn:E.
    + cbn [app]. apply startswith_inv in E. destruct E as (rest & E).
      cbn [app] in E. injection E as -> ->.
      inversion Hold as [|? ? Ho Hrest]; subst.
      cbn [length]. rewrite Nat.sub_succ, Nat.sub_0_r.
      apply IH; [|now apply Tail].
      rewrite firstn_app, firstn_all, Nat.sub_diag. cbn [firstn].
      now rewrite app_nil_r.
    + inversion H; subst; [now constructor|].
      constructor 2. apply IH; [constructor | assumption].
  - cbn [firstn] in Hk. inversion Hk; subst.
    apply IH; [assumption | now apply Tail].
Qed.

Lemma delete_finds (old s : str) :
  old <> [] -> Forall (fun c => ~ P c) old -> Exists P s ->
  Exists P (replace old [] s).
Proof.
  intros Hne Hold H. destruct old as [|o old]; [congruence|].
  apply replace_from_finds; [assumption | constructor | assumption].
Qed.

End Found.

Section Digit.
Context {ucd : UnicodeData}.

Lemma isdecimal_ascii (c : cp) :
  isascii c = true -> isdecimal c = ((48 <=? c) && (c <=? 57))%N.
Proof.
  intros H. unfold isdecimal, todecimal. rewrite H.
  now destruct ((48 <=? c) && (c <=? 57))%N.
Qed.

Lemma isdecimal_ascii_lower (c : cp) :
  isascii c = true -> isdecimal (ascii_lower c) = isdecimal c.
Proof.
  intros H. rewrite (isdecimal_ascii _ H).
  rewrite (isdecimal_ascii _ (ascii_lower_ascii _ H)).
  unfold ascii_lower. destruct ((65 <=? c) && (c <=? 90))%N eqn:E;
    [|reflexivity].
  apply andb_true_iff in E. destruct E as [E1 E2].
  apply N.leb_le in E1, E2.
  replace (c + 32 <=? 57)%N with false by (symmetry; apply N.leb_gt; lia).
  replace (48 <=? c)%N with true by (symmetry; apply N.leb_le; lia).
  replace (c <=? 57)%N with false by (symmetry; apply N.leb_gt; lia).
  now rewrite andb_false_r.
Qed.

Lemma digit_no_space (c : cp) :
  isascii c = true /\ isdecimal c = true -> isspace c = false.
Proof.
  intros [Ha Hd]. rewrite (isdecimal_ascii _ Ha) in Hd.
  apply andb_true_iff in Hd. destruct Hd as [H1 H2].
  apply N.leb_le in H1, H2.
  unfold isspace, Py_UNICODE_ISSPACE.
  repeat match goal with
         | |- context [(?a <=? ?b)%N] =>
             destruct (N.leb_spec a b); try lia
         | |- context [(?a =? ?b)%N] =>
             destruct (N.eqb_spec a b); try lia
         end; reflexivity.
Qed.

(** X7. An ASCII text parses exactly when it holds a digit, whatever
    stands around the digit: the parser refuses a text only if none of
    its characters is one of [0] to [9]. *)
Theorem digit_makes_expense (text : str) :
  forallb isascii text = true ->
  (parse_expense text = None <->
   Forall (fun c => isdecimal c = false) text).
Proof.
  intros Hascii.
  assert (Hall : Forall (fun c => isascii c = true) text).
  { apply Forall_forall. now apply forallb_forall. }
  rewrite parse_expense_normalized, parse_normalized_none,
    search_amount_none, contains_amount_digit.
  split.
  - intros Hnone. apply Forall_forall. intros c Hin.
    destruct (isdecimal c) eqn:Hd; [|reflexivity]. exfalso. apply Hnone.
    set (P := fun c : cp => isascii c = true /\ isdecimal c = true).
    assert (HP : Exists P (normalize text)).
    { unfold normalize.
      apply (@strip_finds P _ digit_no_space).
      apply delete_finds; [discriminate | |].
      { repeat constructor; intros [_ H]; vm_compute in H; discriminate. }
      apply delete_finds; [discriminate | |].
      { repeat constructor; intros [_ H]; vm_compute in H; discriminate. }
      apply (@strip_finds P _ digit_no_space).
      rewrite (lower_ascii _ Hascii).
      apply Exists_exists. exists (ascii_lower c). split.
      - now apply in_map.
      - assert (Ha : isascii c = true)
          by (rewrite Forall_forall in Hall; now apply Hall).
        split; [now apply ascii_lower_ascii|].
        now rewrite isdecimal_ascii_lower. }
    apply Exists_exists in HP. destruct HP as (x & Hx & _ & Hdx).
    apply Exists_exists. now exists x.
  - intros Hnone Hex.
    set (Q := fun c : cp => isascii c = true /\ isdecimal c = false).
    assert (HQ : Forall Q (normalize text)).
    { unfold normalize. apply strip_keeps.
      apply delete_keeps; [discriminate|].
      apply delete_keeps; [discriminate|].
      apply strip_keeps. rewrite (lower_ascii _ Hascii).
      apply Forall_forall. intros x Hin. apply in_map_iff in Hin.
      destruct Hin as (c & <- & Hc).
      rewrite Forall_forall in Hall, Hnone.
      split; [apply ascii_lower_ascii; now apply Hall|].
      rewrite isdecimal_ascii_lower by now apply Hall. now apply Hnone. }
    apply Exists_exists in Hex. destruct Hex as (x & Hx & Hdx).
    rewrite Forall_forall in HQ. destruct (HQ x Hx) as [_ Habs]. congruence.
Qed.

End Digit.

(** ** Amounts are written to the cent *)

Section Rounding.
Local Open Scope Z_scope.

Lemma digits2_pos_bounds (p : positive) :
  2 ^ (Z.pos (digits2_pos p) - 1) <= Z.pos p < 2 ^ Z.pos (digits2_pos p).
Proof.
  induction p as [p IH|p IH|]; cbn [digits2_pos];
    rewrite ?Pos2Z.inj_succ.
  - replace (Z.succ (Z.pos (digits2_pos p)) - 1)
      with (Z.succ (Z.pos (digits2_pos p) - 1)) by lia.
    rewrite !Z.pow_succ_r by lia. lia.
  - replace (Z.succ (Z.pos (digits2_pos p)) - 1)
      with (Z.succ (Z.pos (digits2_pos p) - 1)) by lia.
    rewrite !Z.pow_succ_r by lia. lia.
  - cbn. lia.
Qed.

Lemma Zdigits2_bounds (m : Z) :
  0 < m -> 2 ^ (Zdigits2 m - 1) <= m < 2 ^ Zdigits2 m.
Proof.
  destruct m as [|p|p]; try lia. intros _. apply digits2_pos_bounds.
Qed.

Lemma Zdigits2_between (m a b : Z) :
  0 <= a -> 2 ^ a <= m < 2 ^ b -> a < Zdigits2 m <= b.
Proof.
  intros Ha [H1 H2].
  assert (Hm : 0 < m) by (pose proof (Z.pow_pos_nonneg 2 a); lia).
  destruct (Zdigits2_bounds Hm) as [L U].
  assert (Hd : 0 < Zdigits2 m) by (destruct m; cbn; lia).
  split.
  - apply (Z.pow_lt_mono_r_iff 2); lia.
  - assert (Zdigits2 m - 1 < b); [|lia].
    apply (Z.pow_lt_mono_r_iff 2); try lia.
    destruct (Z.le_gt_cases 0 b); [assumption|].
    rewrite Z.pow_neg_r in H2 by assumption. lia.
Qed.

Lemma shr_1_half (mrs : shr_record) :
  0 <= shr_m mrs ->
  2 * shr_m (shr_1 mrs) <= shr_m mrs <= 2 * shr_m (shr_1 mrs) + 1.
Proof.
  destruct mrs as [m r s]. cbn [shr_m shr_1].
  destruct m as [|[p|p|]|[p|p|]]; cbn [shr_m]; lia.
Qed.

Lemma shr_record_of_loc_m (m : Z) (l : location) :
  shr_m (shr_record_of_loc m l) = m.
Proof. now destruct l as [|[ | | ]]. Qed.

(** A mantissa of 53 or 54 bits is cut to 53 bits. *)
Lemma shr_fexp_normal (m e : Z) (l : location) :
  2 ^ 52 <= m < 2 ^ 54 -> -1074 <= e ->
  exists mrs n,
    shr_fexp 53 1024 m e l = (mrs, e + n) /\ 0 <= n <= 1 /\
    2 ^ 52 <= shr_m mrs < 2 ^ 53 /\
    shr_m mrs * 2 ^ n <= m < (shr_m mrs + 1) * 2 ^ n.
Proof.
  intros Hm He.
  assert (Hd : 52 < Zdigits2 m <= 54) by (apply Zdigits2_between; lia).
  assert (Hpos : 0 < m) by lia.
  pose proof (Zdigits2_bounds Hpos) as Hb.
  unfold shr_fexp.
  assert (Hcase : Zdigits2 m = 53 \/ Zdigits2 m = 54) by lia.
  destruct Hcase as [E|E]; rewrite E in *.
  - replace (fexp 53 1024 (53 + e) - e) with 0 by (unfold fexp, emin; lia).
    exists (shr_record_of_loc m l), 0. cbn [shr].
    rewrite shr_record_of_loc_m, Z.add_0_r. change (2 ^ 0) with 1.
    change (2 ^ (53 - 1)) with (2 ^ 52) in Hb. repeat split; lia.
  - replace (fexp 53 1024 (54 + e) - e) with 1 by (unfold fexp, emin; lia).
    exists (shr_1 (shr_record_of_loc m l)), 1. cbn [shr iter_pos].
    pose proof (@shr_1_half (shr_record_of_loc m l)) as Hh.
    rewrite shr_record_of_loc_m in Hh. specialize (Hh ltac:(lia)).
    change (2 ^ (54 - 1)) with (2 ^ 53) in Hb.
    change (2 ^ 1) with 2.
    change (2 ^ 52) with 4503599627370496 in *.
    change (2 ^ 53) with 9007199254740992 in *.
    change (2 ^ 54) with 18014398509481984 in *.
    repeat split; lia.
Qed.

Lemma round_nearest_even_step (m : Z) (l : location) :
  m <= round_nearest_even m l <= m + 1.
Proof.
  destruct l as [|[ | | ]]; cbn [round_nearest_even]; try lia.
  destruct (Z.even m); lia.
Qed.

(** Rounding a quotient of 53 or 54 bits: the result is finite and
    within three units of the last place of the quotient. *)
Lemma binary_round_aux_near (q e : Z) (l : location) :
  2 ^ 52 <= q < 2 ^ 54 -> -1074 <= e <= 0 ->
  exists m n,
    binary_round_aux 53 1024 false q e l = S754_finite false m (e + n) /\
    0 <= n <= 2 /\
    (Z.pos m - 1) * 2 ^ n <= q < (Z.pos m + 2) * 2 ^ n.
Proof.
  intros Hq He. unfold binary_round_aux.
  destruct (@shr_fexp_normal q e l Hq ltac:(lia))
    as (mrs1 & n1 & -> & Hn1 & Hm1 & Hq1).
  pose proof (round_nearest_even_step (shr_m mrs1) (loc_of_shr_record mrs1))
    as Hr.
  set (m2 := round_nearest_even (shr_m mrs1) (loc_of_shr_record mrs1)) in *.
  change (2 ^ 52) with 4503599627370496 in *.
  change (2 ^ 53) with 9007199254740992 in *.
  change (2 ^ 54) with 18014398509481984 in *.
  assert (Hm2 : 4503599627370496 <= m2 < 18014398509481984) by lia.
  change 4503599627370496 with (2 ^ 52) in Hm2.
  change 18014398509481984 with (2 ^ 54) in Hm2.
  destruct (@shr_fexp_normal m2 (e + n1) loc_Exact Hm2 ltac:(lia))
    as (mrs2 & n2 & -> & Hn2 & Hm3 & Hq2).
  change (2 ^ 52) with 4503599627370496 in *.
  change (2 ^ 53) with 9007199254740992 in *.
  change (2 ^ 54) with 18014398509481984 in *.
  destruct (shr_m mrs2) as [|m|m] eqn:E3; try lia.
  replace (e + n1 + n2 <=? 1024 - 53) with true
    by (symmetry; apply Z.leb_le; lia).
  exists m, (n1 + n2). split; [now rewrite Z.add_assoc|].
  split; [lia|].
  assert (C1 : n1 = 0 \/ n1 = 1) by lia.
  assert (C2 : n2 = 0 \/ n2 = 1) by lia.
  destruct C1 as [-> | ->], C2 as [-> | ->];
    change (2 ^ (0 + 0)) with 1; change (2 ^ (0 + 1)) with 2;
    change (2 ^ (1 + 0)) with 2; change (2 ^ (1 + 1)) with 4;
    change (2 ^ 0) with 1 in *; change (2 ^ 1) with 2 in *; lia.
Qed.

(** The quotient of two integers of at most 53 bits: the float lies
    within three units of its last place of the quotient, and its
    exponent is as small as the operands are. *)
Lemma SFdiv_near (p D : positive) :
  Zdigits2 (Z.pos p) - Zdigits2 (Z.pos D) <= 41 ->
  Zdigits2 (Z.pos D) <= 60 ->
  exists m e,
    SFdiv 53 1024 (S754_finite false p 0) (S754_finite false D 0)
    = S754_finite false m e /\
    e <= -10 /\
    (Z.pos m - 1) * Z.pos D <= Z.pos p * 2 ^ (- e)
      < (Z.pos m + 3) * Z.pos D.
Proof.
  intros H1 H2.
  pose proof (digits2_pos_bounds p) as Bp.
  pose proof (digits2_pos_bounds D) as BD.
  unfold SFdiv, SFdiv_core_binary. cbv zeta. cbn [xorb].
  change (Zdigits2 (Z.pos p)) with (Z.pos (digits2_pos p)) in *.
  change (Zdigits2 (Z.pos D)) with (Z.pos (digits2_pos D)) in *.
  set (d1 := Z.pos (digits2_pos p)) in *.
  set (d2 := Z.pos (digits2_pos D)) in *.
  assert (Hd1 : 0 < d1) by (unfold d1; lia).
  assert (Hd2 : 0 < d2) by (unfold d2; lia).
  set (s := 53 + d2 - d1).
  replace (Z.min (fexp 53 1024 (d1 + 0 - (d2 + 0))) (0 - 0)) with (- s)
    by (unfold fexp, emin, s; lia).
  replace (0 - 0 - - s) with s by lia.
  assert (Hs : 12 <= s) by (unfold s; lia).
  destruct s as [|sp|sp] eqn:Es; try lia. rewrite <- Es in *.
  rewrite Z.shiftl_mul_pow2 by lia.
  set (P := Z.pos p * 2 ^ s).
  assert (HP : 2 ^ 53 * 2 ^ (d2 - 1) <= P < 2 ^ 54 * 2 ^ (d2 - 1)).
  { unfold P. rewrite <- !Z.pow_add_r by lia.
    replace (53 + (d2 - 1)) with ((d1 - 1) + s) by (unfold s; lia).
    replace (54 + (d2 - 1)) with (d1 + s) by (unfold s; lia).
    rewrite !Z.pow_add_r by lia.
    assert (0 < 2 ^ s) by (apply Z.pow_pos_nonneg; lia).
    split; nia. }
  assert (HD : 2 ^ (d2 - 1) <= Z.pos D < 2 * 2 ^ (d2 - 1)).
  { replace (2 * 2 ^ (d2 - 1)) with (2 ^ d2); [exact BD|].
    replace d2 with (Z.succ (d2 - 1)) at 1 by lia.
    apply Z.pow_succ_r. lia. }
  set (A := 2 ^ (d2 - 1)) in *.
  assert (HA : 0 < A) by (apply Z.pow_pos_nonneg; lia).
  pose proof (Z_div_mod P (Z.pos D) ltac:(lia)) as Hdiv.
  destruct (Z.div_eucl P (Z.pos D)) as [q r]. destruct Hdiv as [Hq Hr].
  change (2 ^ 53) with 9007199254740992 in HP.
  change (2 ^ 54) with 18014398509481984 in HP.
  assert (Bq : 2 ^ 52 <= q < 2 ^ 54).
  { change (2 ^ 52) with 4503599627370496.
    change (2 ^ 54) with 18014398509481984.
    split.
    - apply Z.nlt_ge. intros Hlt.
      assert ((q + 1) * Z.pos D <= 4503599627370496 * Z.pos D) by nia.
      nia.
    - apply Z.nle_gt. intros Hge.
      assert (18014398509481984 * Z.pos D <= q * Z.pos D) by nia.
      nia. }
  destruct (@binary_round_aux_near q (- s) (new_location (Z.pos D) r) Bq
              ltac:(unfold s; lia)) as (m & n & -> & Hn & Hm).
  exists m, (- s + n). split; [reflexivity|]. split; [lia|].
  replace (- (- s + n)) with (s - n) by lia.
  set (X := 2 ^ (s - n)).
  assert (HX : 2 ^ s = X * 2 ^ n).
  { unfold X. rewrite <- Z.pow_add_r by lia. f_equal. lia. }
  assert (HPX : P = Z.pos p * X * 2 ^ n) by (unfold P; rewrite HX; ring).
  assert (Cn : n = 0 \/ n = 1 \/ n = 2) by lia.
  destruct Cn as [-> | [-> | ->]];
    change (2 ^ 0) with 1 in *; change (2 ^ 1) with 2 in *;
    change (2 ^ 2) with 4 in *; nia.
Qed.

Lemma round_half_even_near (num den T : Z) :
  0 < den -> 2 * Z.abs (num - T * den) < den ->
  round_half_even num den = T.
Proof.
  intros Hden Hnear. unfold round_half_even.
  destruct (Z.le_gt_cases 0 (num - T * den)) as [Hpos|Hneg].
  - assert (Hq : num / den = T).
    { symmetry. apply (Z.div_unique num den T (num - T * den)); lia. }
    assert (Hr : num mod den = num - T * den).
    { symmetry. apply (Z.mod_unique num den T (num - T * den)); lia. }
    rewrite Hq, Hr.
    replace (2 * (num - T * den) ?= den) with Lt; [reflexivity|].
    symmetry. apply Z.compare_lt_iff. lia.
  - assert (Hq : num / den = T - 1).
    { symmetry. apply (Z.div_unique num den (T - 1) (num - T * den + den));
        lia. }
    assert (Hr : num mod den = num - T * den + den).
    { symmetry.
      apply (Z.mod_unique num den (T - 1) (num - T * den + den)); lia. }
    rewrite Hq, Hr.
    replace (2 * (num - T * den + den) ?= den) with Gt; [lia|].
    symmetry. apply Z.compare_gt_iff. lia.
Qed.

Lemma pow10_digits (k : nat) :
  (k <= 2)%nat -> Zdigits2 (Z.pos (pow10 k)) = Z.of_nat (3 * k + 1).
Proof.
  intros H. destruct k as [|[|[|k]]]; try lia; reflexivity.
Qed.

Lemma pow10_cents (k : nat) :
  (k <= 2)%nat -> Z.pos (pow10 (2 - k)) * Z.pos (pow10 k) = 100.
Proof.
  intros H. destruct k as [|[|[|k]]]; try lia; reflexivity.
Qed.

End Rounding.

(** An amount below a million millions is written to the cent: the
    float of [n / 10^k] and its formatting with two decimals give back
    the hundredths of the amount. *)
Lemma format_float_of_decimal (n : N) (k : nat) :
  k <= 2 -> (n < 1000000000000 * N.pos (pow10 k))%N ->
  format_2f (float_of_decimal n k) = cents_str (n * N.pos (pow10 (2 - k))).
Proof.
  intros Hk Hn. destruct n as [|p]; [reflexivity|].
  unfold float_of_decimal.
  pose proof (pow10_digits Hk) as Hd2.
  pose proof (pow10_cents Hk) as Hc.
  assert (Hd1 : (Zdigits2 (Z.pos p) - Zdigits2 (Z.pos (pow10 k)) <= 41)%Z).
  { rewrite Hd2.
    pose proof (digits2_pos_bounds p) as Bp.
    change (Zdigits2 (Z.pos p)) with (Z.pos (digits2_pos p)).
    set (d1 := Z.pos (digits2_pos p)) in *.
    assert (Hp : (Z.pos p < 2 ^ Z.of_nat (41 + 3 * k))%Z).
    { assert (Hz : (Z.pos p < 1000000000000 * Z.pos (pow10 k))%Z) by lia.
      destruct k as [|[|[|k]]]; try lia;
        cbn [pow10] in Hz; cbn; lia. }
    assert ((d1 - 1 < Z.of_nat (41 + 3 * k))%Z); [|lia].
    apply (Z.pow_lt_mono_r_iff 2); lia. }
  destruct (@SFdiv_near p (pow10 k) Hd1 ltac:(rewrite Hd2; lia))
    as (m & e & -> & He & Hm).
  assert (Hh : hundredths m e = (N.pos p * N.pos (pow10 (2 - k)))%N).
  { unfold hundredths.
    replace (0 <=? e)%Z with false by (symmetry; apply Z.leb_gt; lia).
    assert (HX : (2 ^ 10 <= 2 ^ (- e))%Z)
      by (apply Z.pow_le_mono_r; lia).
    change (2 ^ 10)%Z with 1024%Z in HX.
    rewrite (@round_half_even_near _ _
               (Z.pos p * Z.pos (pow10 (2 - k)))%Z); [lia|lia|].
    set (X := (2 ^ (- e))%Z) in *.
    set (c := Z.pos (pow10 (2 - k))) in *.
    set (D := Z.pos (pow10 k)) in *.
    assert (Hc0 : (0 < c)%Z) by (unfold c; lia).
    assert (HD0 : (0 < D)%Z) by (unfold D; lia).
    nia. }
  cbn [format_2f sign_str app]. rewrite Hh. reflexivity.
Qed.

Section ValueColumn.
Context {ucd : UnicodeData}.

Lemma amount_denotes_decimals (g : str) (n : N) (k : nat) :
  amount_denotes g n k -> k <= 2.
Proof. destruct 1; lia. Qed.

Lemma digits_prefix_unique (a a' r r' : str) (c c' : cp) :
  digits a -> digits a' -> isdecimal c = false -> isdecimal c' = false ->
  a ++ c :: r = a' ++ c' :: r' -> a = a' /\ c = c' /\ r = r'.
Proof.
  intros Ha. revert a'. induction Ha as [|x a Hx Ha IH];
    intros a' Ha' Hc Hc' E; destruct Ha' as [|y a' Hy Ha']; cbn [app] in E.
  - injection E as <- <-. auto.
  - injection E as -> _. congruence.
  - injection E as -> _. congruence.
  - injection E as <- E. destruct (IH a' Ha' Hc Hc' E) as (-> & -> & ->).
    auto.
Qed.

Lemma digits_no_separator (ds r : str) (c : cp) :
  digits (ds ++ c :: r) -> isdecimal c = false -> False.
Proof.
  intros H Hc. apply Forall_app in H. destruct H as [_ H].
  inversion H; subst. congruence.
Qed.

(** A text denotes one amount at most. *)
Lemma amount_denotes_unique (g : str) (n n' : N) (k k' : nat) :
  amount_denotes g n k -> amount_denotes g n' k' -> n = n' /\ k = k'.
Proof.
  intros H1 H2.
  destruct H1 as [ds Hne Hd | ds fs Hne Hd Hf Hl | ds fs Hne Hd Hf Hl];
    inversion H2 as [ds' Hne' Hd' E | ds' fs' Hne' Hd' Hf' Hl' E
                    | ds' fs' Hne' Hd' Hf' Hl' E]; subst.
  - auto.
  - exfalso. apply (digits_no_separator _ _ _ Hd comma_no_digit).
  - exfalso. apply (digits_no_separator _ _ _ Hd dot_no_digit).
  - exfalso. apply (digits_no_separator _ _ _ Hd' comma_no_digit).
  - destruct (@digits_prefix_unique _ _ _ _ _ _ Hd' Hd comma_no_digit comma_no_digit E)
      as (-> & _ & ->). auto.
  - destruct (@digits_prefix_unique _ _ _ _ _ _ Hd' Hd dot_no_digit comma_no_digit E)
      as (_ & Habs & _). discriminate Habs.
  - exfalso. apply (digits_no_separator _ _ _ Hd' dot_no_digit).
  - destruct (@digits_prefix_unique _ _ _ _ _ _ Hd' Hd comma_no_digit dot_no_digit E)
      as (_ & Habs & _). discriminate Habs.
  - destruct (@digits_prefix_unique _ _ _ _ _ _ Hd' Hd dot_no_digit dot_no_digit E)
      as (-> & _ & ->). auto.
Qed.

(** X8. The value column shows the amount that was typed, to the cent:
    when the amount the parser found denotes [n / 10^k] and is below a
    million millions, the value of the parse, written with two
    decimals as [add_row] writes it, is [n / 10^k] itself, digit for
    digit. *)
Theorem value_column_exact (text : str) (value : float) (desc conta : str)
    (m : Match) (n : N) (k : nat) :
  parse_expense text = Some (value, desc, conta) ->
  re_search amount_re (normalize text) = Some m ->
  amount_denotes (group1 (normalize text) m) n k ->
  (n < 1000000000000 * N.pos (pow10 k))%N ->
  format_2f value = cents_str (n * N.pos (pow10 (2 - k))).
Proof.
  intros Hp E Hden Hn. rewrite parse_expense_normalized in Hp.
  pose proof E as F. apply parse_normalized_found in F.
  destruct F as (n' & k' & Hden' & _ & Hf). rewrite Hf in Hp.
  destruct (fields_some (float_of_decimal n' k')
              (split (remainder (normalize text) m))) as (d' & c' & Hfs).
  rewrite Hfs in Hp. injection Hp as <- _ _.
  destruct (amount_denotes_unique Hden Hden') as (<- & <-).
  apply format_float_of_decimal; [|exact Hn].
  eapply amount_denotes_decimals. eassumption.
Qed.

End ValueColumn.

(** ** More about the handler *)

Lemma strip_strip (s : str) : strip (strip s) = strip s.
Proof.
  destruct (strip_cut s) as (l & r & Hs & Hl & Hr).
  pose proof (@strip_padded l (strip s) r Hl Hr) as E.
  rewrite <- Hs in E. now symmetry.
Qed.

Lemma py_strip_trimmed (v : json) (text : str) :
  py_strip v = Return text -> strip text = text.
Proof.
  destruct v; try discriminate. intros H. injection H as <-.
  apply strip_strip.
Qed.

Lemma text_of_trimmed (message : json) (text : str) :
  text_of message = Return text -> strip text = text.
Proof.
  unfold text_of. destruct (py_get message (lit "text") JNull); [|discriminate].
  apply py_strip_trimmed.
Qed.

Lemma replace_dot_comma (s : str) :
  replace (lit ".") (lit ",") s = dot_to_comma s.
Proof.
  change (lit ".") with [46%N]. rewrite replace_char.
  unfold dot_to_comma. induction s as [|c s IH]; [reflexivity|].
  cbn [flat_map map]. rewrite IH. now destruct (c =? 46)%N.
Qed.

Lemma dot_to_comma_app (a b : str) :
  dot_to_comma (a ++ b) = dot_to_comma a ++ dot_to_comma b.
Proof. apply map_app. Qed.

Lemma no_dot_left (s : str) : ~ In 46%N (dot_to_comma s).
Proof.
  unfold dot_to_comma. intros H. apply in_map_iff in H.
  destruct H as (c & Hc & _). destruct (c =? 46)%N eqn:E.
  - discriminate Hc.
  - apply N.eqb_neq in E. congruence.
Qed.

Section Calls.
Context {ucd : UnicodeData}.
Variable w : World.

Lemma booked_reply_nonempty (head : str) (value : float) (desc conta : str) :
  replace (lit ".") (lit ",") (head ++ msg_booked value desc conta) <> [].
Proof.
  rewrite replace_dot_comma, dot_to_comma_app. unfold msg_booked.
  destruct (dot_to_comma head); discriminate.
Qed.

Lemma tidy_nil (chat_id msg_id : json) : tidy w chat_id msg_id [].
Proof. repeat split; intros x []. Qed.

Ltac tidy_calls :=
  split; [cbn; intuition lia|];
  split; intros x Hin; cbn in Hin;
  repeat (destruct Hin as [Hin|Hin]; try discriminate Hin);
  try contradiction;
  injection Hin as <-;
  match goal with
  | |- booked_row _ _ =>
      do 4 eexists; split; [reflexivity|]; split; [eassumption|];
      split; [discriminate | assumption]
  | |- addressed _ _ _ =>
      eexists; split; [reflexivity|];
      first [ discriminate
            | apply (booked_reply_nonempty [])
            | apply booked_reply_nonempty ]
  end.

Ltac leaf :=
  cbn [snd]; rewrite <- ?app_assoc; cbn [app];
  first [ exists []; split; [now rewrite app_nil_r | apply tidy_nil]
        | eexists; split; [reflexivity|] ].

Lemma text_branch_tidy (chat_id msg_id : json) (text : str) (tr : trace) :
  strip text = text ->
  exists added,
    snd (text_branch w chat_id msg_id text tr) = tr ++ added /\
    tidy w chat_id msg_id added.
Proof.
  intros Hs. unfold text_branch.
  destruct text as [|c text]; [leaf|].
  destruct (parse_expense (c :: text)) as [[[value desc] conta]|] eqn:Hp;
    unfold bind, ret.
  - rewrite add_row_run.
    destruct (sheets_append_row w _) as [[]|e].
    + rewrite send_message_run.
      destruct (telegram_sendMessage w _); leaf; tidy_calls.
    + leaf. tidy_calls.
  - rewrite send_message_run.
    destruct (telegram_sendMessage w _); leaf; tidy_calls.
Qed.

Lemma audio_branch_tidy (chat_id msg_id file_id : json) (tr : trace) :
  exists added,
    snd (audio_branch w chat_id msg_id file_id tr) = tr ++ added /\
    tidy w chat_id msg_id added.
Proof.
  unfold audio_branch, transcribe_ogg_to_text, bind, ret, lift, call.
  destruct (telegram_getFile w file_id) as [info|e]; [|leaf; tidy_calls].
  destruct (py_get info (lit "ok") JNull) as [ok|e]; [|leaf; tidy_calls].
  destruct (truthy ok); cbn [negb].
  2:{ rewrite send_message_run.
      destruct (telegram_sendMessage w _); leaf; tidy_calls. }
  destruct (py_item info (lit "result")) as [res|e]; [|leaf; tidy_calls].
  destruct (py_item res (lit "file_path")) as [path|e]; [|leaf; tidy_calls].
  destruct (http_download w path) as [content|e]; [|leaf; tidy_calls].
  destruct (whisper_transcribe w content) as [result|e]; [|leaf; tidy_calls].
  destruct (py_get result (lit "text") JNull) as [t|e]; [|leaf; tidy_calls].
  destruct (py_strip (py_or t (JStr []))) as [text|e] eqn:Hstrip;
    [|leaf; tidy_calls].
  apply py_strip_trimmed in Hstrip.
  destruct text as [|c text].
  { rewrite send_message_run.
    destruct (telegram_sendMessage w _); leaf; tidy_calls. }
  destruct (parse_expense (c :: text)) as [[[value desc] conta]|] eqn:Hp.
  - rewrite add_row_run.
    destruct (sheets_append_row w _) as [[]|e].
    + rewrite send_message_run.
      destruct (telegram_sendMessage w _); leaf; tidy_calls.
    + leaf. tidy_calls.
  - rewrite send_message_run.
    destruct (telegram_sendMessage w _); leaf; tidy_calls.
Qed.

Lemma webhook_tidy (request_json : json) (tr : trace) :
  exists added,
    snd (webhook w request_json tr) = tr ++ added /\
    (added = [] \/
     exists message chat_id msg_id,
       message_of request_json = Return message /\
       chat_id_of message = Return chat_id /\
       py_get message (lit "message_id") JNull = Return msg_id /\
       tidy w chat_id msg_id added).
Proof.
  rewrite webhook_view.
  assert (Nil : forall r : result response,
             exists added, snd (r, tr) = tr ++ added /\
               (added = [] \/
                exists message chat_id msg_id,
                  message_of request_json = Return message /\
                  chat_id_of message = Return chat_id /\
                  py_get message (lit "message_id") JNull = Return msg_id /\
                  tidy w chat_id msg_id added)).
  { intros r. exists []. split; [now rewrite app_nil_r | now left]. }
  destruct (message_of request_json) as [message|e] eqn:Hm; [|apply Nil].
  destruct (truthy message); [|apply Nil].
  destruct (chat_id_of message) as [chat_id|e] eqn:Hc; [|apply Nil].
  destruct (py_get message (lit "message_id") JNull) as [msg_id|e] eqn:Hi;
    [|apply Nil].
  destruct (file_id_of message) as [file_id|e]; [|apply Nil].
  destruct (truthy file_id).
  - destruct (audio_branch_tidy chat_id msg_id file_id tr) as (added & E & T).
    exists added. split; [exact E|]. right.
    exists message, chat_id, msg_id. auto.
  - destruct (text_of message) as [text|e] eqn:Ht; [|apply Nil].
    apply text_of_trimmed in Ht.
    destruct (text_branch_tidy chat_id msg_id tr Ht) as (added & E & T).
    exists added. split; [exact E|]. right.
    exists message, chat_id, msg_id. auto.
Qed.

(** X9. Whatever the update and whatever the collaborators answer, the
    calls of the handler come in the order [getFile], download,
    transcription, row, reply, each at most once; and a row is written
    only for a text, typed or transcribed, that is not empty, has no
    whitespace at its ends and parses: the row holds the value, the
    description and the account of that parse, and the text itself. *)
Theorem rows_record_parses (request_json : json) (tr : trace) :
  exists added,
    snd (webhook w request_json tr) = tr ++ added /\
    ascending (map rank added) /\
    forall row, In (AppendRow row) added -> booked_row w row.
Proof.
  destruct (webhook_tidy request_json tr) as (added & E & [->|T]).
  - exists []. split; [exact E|]. split; [exact I|]. intros row [].
  - destruct T as (message & chat_id & msg_id & _ & _ & _ & T1 & T2 & _).
    exists added. auto.
Qed.

(** X10. Every message the handler sends has a text that is not empty and
    goes, as a reply to the message of the update, to the chat that
    message came from. *)
Theorem replies_answer_the_message (request_json : json) (tr : trace) :
  exists added,
    snd (webhook w request_json tr) = tr ++ added /\
    forall payload, In (SendMessage payload) added ->
      exists message chat_id msg_id,
        message_of request_json = Return message /\
        chat_id_of message = Return chat_id /\
        py_get message (lit "message_id") JNull = Return msg_id /\
        addressed chat_id msg_id payload.
Proof.
  destruct (webhook_tidy request_json tr) as (added & E & [->|T]).
  - exists []. split; [exact E|]. intros payload [].
  - destruct T as (message & chat_id & msg_id & Hm & Hc & Hi & _ & _ & T3).
    exists added. split; [exact E|]. intros payload Hin.
    exists message, chat_id, msg_id. auto.
Qed.

(** *** The handler stops at the first failure *)

Lemma fail_fast_ret (A : Type) (a : A) : fail_fast w (ret a).
Proof.
  intros tr. exists []. split; [cbn; now rewrite app_nil_r|].
  intros [|x pre] ev post e H; discriminate H.
Qed.

Lemma fail_fast_lift (A : Type) (r : result A) : fail_fast w (lift r).
Proof.
  intros tr. exists []. split; [cbn; now rewrite app_nil_r|].
  intros [|x pre] ev post e H; discriminate H.
Qed.

Lemma fail_fast_call (A : Type) (ev : event) (r : result A) :
  (forall e, failure w ev = Some e -> r = Raise e) ->
  fail_fast w (call ev r).
Proof.
  intros Hr tr. exists [ev]. split; [reflexivity|].
  intros [|x pre] ev' post e H.
  - injection H as <- <-. intros F. split; [reflexivity|].
    cbn. now apply Hr.
  - destruct pre; discriminate H.
Qed.

Lemma fail_fast_bind (A B : Type) (c : M A) (f : A -> M B) :
  fail_fast w c -> (forall a, fail_fast w (f a)) -> fail_fast w (bind c f).
Proof.
  intros Hc Hf tr. destruct (Hc tr) as (a1 & E1 & F1). unfold bind.
  destruct (c tr) as [[a|e0] tr1]; cbn [fst snd] in *; subst tr1.
  - destruct (Hf a (tr ++ a1)) as (a2 & E2 & F2).
    exists (a1 ++ a2). split; [now rewrite E2, app_assoc|].
    intros pre ev post e Hsplit Hfail.
    apply app_eq_app in Hsplit.
    destruct Hsplit as (l & [(H1 & H2)|(H1 & H2)]).
    + destruct l as [|x l].
      * cbn in H2. apply (F2 [] ev post e); [now symmetry | exact Hfail].
      * injection H2 as <- ->.
        destruct (F1 pre ev l e H1 Hfail) as (_ & Habs). discriminate Habs.
    + apply (F2 l ev post e H2 Hfail).
  - exists a1. split; [reflexivity|].
    intros pre ev post e Hsplit Hfail.
    destruct (F1 pre ev post e Hsplit Hfail) as (Hpost & Hraise).
    split; [exact Hpost|]. congruence.
Qed.

Ltac prove_fail_fast :=
  repeat match goal with
         | |- fail_fast _ (bind _ _) => apply fail_fast_bind; [|intros]
         | |- fail_fast _ (ret _) => apply fail_fast_ret
         | |- fail_fast _ (lift _) => apply fail_fast_lift
         | |- fail_fast _ (call _ _) =>
             apply fail_fast_call; cbn [failure];
             let e := fresh "e" in
             intros e;
             match goal with
             | |- match ?x with _ => _ end = _ -> _ => destruct x
             end; congruence
         | |- fail_fast _ (send_message _ _ _ _) => unfold send_message
         | |- fail_fast _ (add_row _ _ _ _ _) => unfold add_row
         | |- fail_fast _ (transcribe_ogg_to_text _ _) =>
             unfold transcribe_ogg_to_text
         | |- fail_fast _ (if ?b then _ else _) => destruct b
         | |- fail_fast _ (match ?x with _ => _ end) => destruct x
         end.

Lemma webhook_fail_fast (request_json : json) :
  fail_fast w (webhook w request_json).
Proof. unfold webhook. prove_fail_fast. Qed.

(** X11. The handler catches nothing and goes on after no failure: when a
    call to a collaborator raises, that call is the last one the
    handler makes and the handler raises what the call raised. *)
Theorem webhook_stops_at_first_failure (request_json : json) (tr : trace) :
  exists added,
    snd (webhook w request_json tr) = tr ++ added /\
    forall pre ev post e,
      added = pre ++ ev :: post -> failure w ev = Some e ->
      post = [] /\ fst (webhook w request_json tr) = Raise e.
Proof. apply webhook_fail_fast. Qed.

End Calls.

(** ** The paths of the handler *)

Section Paths.
Context {ucd : UnicodeData}.
Variable w : World.

Lemma parse_expense_nil : parse_expense [] = None.
Proof. reflexivity. Qed.

Lemma py_or_object (u : list (str * json)) : py_or (JObj u) (JObj []) = JObj u.
Proof. now destruct u. Qed.

Lemma message_of_object (u : list (str * json)) :
  message_of (JObj u)
  = Return (if truthy (field (lit "message") u)
            then field (lit "message") u
            else field (lit "edited_message") u).
Proof.
  unfold message_of. rewrite py_or_object. cbn [py_get].
  fold (field (lit "message") u). fold (field (lit "edited_message") u).
  now destruct (truthy (field (lit "message") u)).
Qed.

(** X12. Updates the handler has nothing to do for are acknowledged without
    a call to any collaborator: a body that is no JSON or is empty, an
    update with neither a message nor an edited message (a channel
    post, a callback query), and a message with no attachment and no
    text but whitespace (a photo, a sticker). *)
Theorem ignored_updates (tr : trace) :
  (forall request_json,
      truthy request_json = false ->
      webhook w request_json tr = (Return ack, tr)) /\
  (forall u,
      lookup (lit "message") u = None ->
      lookup (lit "edited_message") u = None ->
      webhook w (JObj u) tr = (Return ack, tr)) /\
  (forall request_json chat_id msg_id,
      text_update request_json chat_id msg_id [] ->
      webhook w request_json tr = (Return ack, tr)).
Proof.
  split; [|split].
  - intros req Hf. rewrite webhook_view. unfold message_of, py_or.
    rewrite Hf. reflexivity.
  - intros u H1 H2. rewrite webhook_view, message_of_object.
    unfold field. rewrite H1, H2. reflexivity.
  - intros req chat_id msg_id (message & fid & Hm & Tm & Hc & Hi & Hf & Tf & Ht).
    rewrite webhook_view, Hm, Tm, Hc, Hi, Hf, Tf, Ht. reflexivity.
Qed.

(** X13. An edited message is handled as a new message is, and a message
    takes precedence over an edited message: the handler does on an
    update what it does on the update that holds, as its message, the
    message of the first when there is one and its edited message
    otherwise. *)
Theorem edited_message_is_handled (u : list (str * json)) (tr : trace) :
  webhook w (JObj u) tr
  = webhook w
      (JObj [(lit "message",
              if truthy (field (lit "message") u)
              then field (lit "message") u
              else field (lit "edited_message") u)]) tr.
Proof.
  rewrite !webhook_view, !message_of_object.
  set (m := if truthy (field (lit "message") u)
            then field (lit "message") u
            else field (lit "edited_message") u).
  change (field (lit "message") [(lit "message", m)]) with m.
  change (field (lit "edited_message") [(lit "message", m)]) with JNull.
  destruct (truthy m) eqn:T.
  - rewrite T. reflexivity.
  - reflexivity.
Qed.


(** X15. A voice or audio message whose transcript parses is booked with
    the transcript as its original text and then confirmed; the
    confirmation shows the transcript, with every [.] of it turned
    into a comma too. *)
Theorem audio_expense_booked
    (request_json chat_id msg_id file_id file_path : json)
    (content : list N) (text : str) (value : float) (desc conta : str)
    (tr : trace) :
  audio_update request_json chat_id msg_id file_id ->
  transcribed w file_id file_path content text ->
  parse_expense text = Some (value, desc, conta) ->
  let row := [strftime (utcnow w); format_2f value; desc; conta; text] in
  let reply :=
    reply_payload chat_id
      (dot_to_comma (transcript_header text)
         ++ dot_to_comma (msg_booked value desc conta))
      msg_id in
  let fetched :=
    tr ++ [GetFile file_id; Download file_path; Transcribe content] in
  webhook w request_json tr
  = match sheets_append_row w row with
    | Raise e => (Raise e, fetched ++ [AppendRow row])
    | Return _ =>
        (after_reply (telegram_sendMessage w reply),
         fetched ++ [AppendRow row; SendMessage reply])
    end.
Proof.
  intros (message & Hm & Tm & Hc & Hi & Hf & Tf)
    (info & ok & res & result & t & Hfile & Hok & Tok & Hres & Hpath
     & Hload & Hmodel & Htext & Hstrip) Hp row reply fetched.
  rewrite webhook_view, Hm, Tm, Hc, Hi, Hf, Tf.
  unfold audio_branch, transcribe_ogg_to_text, bind, lift, call, ret.
  rewrite Hfile, Hok, Tok. cbn [negb]. rewrite Hres, Hpath, Hload, Hmodel.
  rewrite Htext, Hstrip.
  destruct text as [|c text]; [rewrite parse_expense_nil in Hp; discriminate|].
  rewrite Hp, add_row_run. fold row.
  assert (Ef : ((tr ++ [GetFile file_id]) ++ [Download file_path])
               ++ [Transcribe content] = fetched).
  { unfold fetched. now rewrite <- !app_assoc. }
  rewrite Ef.
  destruct (sheets_append_row w row) as [[]|e]; [|reflexivity].
  rewrite send_message_run, replace_dot_comma, dot_to_comma_app. fold reply.
  rewrite <- app_assoc.
  destruct (telegram_sendMessage w reply) as [[]|e]; reflexivity.
Qed.

(** X16. When Telegram does not give the file, or when the transcript is
    empty, the handler apologises and goes no further: no download or
    transcription after a refused [getFile], and in both cases no row. *)
Theorem audio_fallbacks (request_json chat_id msg_id file_id : json)
    (tr : trace) :
  audio_update request_json chat_id msg_id file_id ->
  (forall info ok,
      telegram_getFile w file_id = Return info ->
      py_get info (lit "ok") JNull = Return ok -> truthy ok = false ->
      let reply := reply_payload chat_id msg_no_audio msg_id in
      webhook w request_json tr
      = (after_reply (telegram_sendMessage w reply),
         tr ++ [GetFile file_id; SendMessage reply])) /\
  (forall file_path content,
      transcribed w file_id file_path content [] ->
      let reply := reply_payload chat_id msg_empty_transcript msg_id in
      webhook w request_json tr
      = (after_reply (telegram_sendMessage w reply),
         tr ++ [GetFile file_id; Download file_path; Transcribe content;
                SendMessage reply])).
Proof.
  intros (message & Hm & Tm & Hc & Hi & Hf & Tf). split.
  - intros info ok Hfile Hok Tok reply.
    rewrite webhook_view, Hm, Tm, Hc, Hi, Hf, Tf.
    unfold audio_branch, bind, lift, call, ret.
    rewrite Hfile, Hok, Tok. cbn [negb]. rewrite send_message_run.
    fold reply. rewrite <- app_assoc.
    destruct (telegram_sendMessage w reply) as [[]|e]; reflexivity.
  - intros file_path content
      (info & ok & res & result & t & Hfile & Hok & Tok & Hres & Hpath
       & Hload & Hmodel & Htext & Hstrip) reply.
    rewrite webhook_view, Hm, Tm, Hc, Hi, Hf, Tf.
    unfold audio_branch, transcribe_ogg_to_text, bind, lift, call, ret.
    rewrite Hfile, Hok, Tok. cbn [negb]. rewrite Hres, Hpath, Hload, Hmodel.
    rewrite Htext, Hstrip, send_message_run. fold reply.
    rewrite <- !app_assoc.
    destruct (telegram_sendMessage w reply) as [[]|e]; reflexivity.
Qed.

(** X17. What the transcription returns has no whitespace at its ends, and
    it is the empty string when the model gives no text; the model is
    called once. *)
Theorem transcript_is_trimmed (ogg : list N) (tr : trace) :
  (forall text tr',
      transcribe_ogg_to_text w ogg tr = (Return text, tr') ->
      tr' = tr ++ [Transcribe ogg] /\ strip text = text) /\
  (forall items,
      whisper_transcribe w ogg = Return (JObj items) ->
      truthy (field (lit "text") items) = false ->
      transcribe_ogg_to_text w ogg tr = (Return [], tr ++ [Transcribe ogg])).
Proof.
  unfold transcribe_ogg_to_text, bind, lift, call. split.
  - intros text tr'.
    destruct (whisper_transcribe w ogg) as [result|e]; [|discriminate].
    destruct (py_get result (lit "text") JNull) as [t|e]; [|discriminate].
    destruct (py_strip (py_or t (JStr []))) as [s|e] eqn:Hs; [|discriminate].
    intros H. injection H as <- <-. split; [reflexivity|].
    now apply py_strip_trimmed in Hs.
  - intros items -> Hf. cbn [py_get]. fold (field (lit "text") items).
    unfold py_or. rewrite Hf. reflexivity.
Qed.

End Paths.

(** ** The configuration *)

Lemma strip_nil_spaces (v : str) : strip v = [] <-> spaces v.
Proof.
  split.
  - intros H. destruct (strip_cut v) as (l & r & Hv & Hl & Hr).
    rewrite H in Hv. cbn [app] in Hv. rewrite Hv. now apply spaces_app.
  - intros H. unfold strip. now rewrite lstrip_all_spaces.
Qed.

Lemma strip_getenv_blank (environ : str -> option str) (k : str) :
  strip (getenv environ k []) = [] <-> blank environ k.
Proof.
  unfold getenv, blank. destruct (environ k) as [v|].
  - apply strip_nil_spaces.
  - split; [constructor | reflexivity].
Qed.

(** X18. The module starts exactly when the token, the sheet id and the
    service account are set to something else than whitespace, and
    otherwise reports the first of them, in that order, that is not.
    What it keeps of each variable is its value without the whitespace
    at its ends.  The worksheet name is [Gastos] only when the variable
    is not set: a variable set to whitespace gives the empty name. *)
Theorem config_needs_three_variables (environ : str -> option str) :
  match load_config environ with
  | inr cfg =>
      ~ blank environ (lit "TELEGRAM_BOT_TOKEN") /\
      ~ blank environ (lit "SHEET_ID") /\
      ~ blank environ (lit "GOOGLE_SA_JSON_B64") /\
      (forall v, environ (lit "TELEGRAM_BOT_TOKEN") = Some v ->
                 TELEGRAM_BOT_TOKEN cfg = strip v) /\
      (forall v, environ (lit "SHEET_ID") = Some v -> SHEET_ID cfg = strip v) /\
      (forall v, environ (lit "GOOGLE_SA_JSON_B64") = Some v ->
                 GOOGLE_SA_JSON_B64 cfg = strip v) /\
      WORKSHEET_NAME cfg
      = match environ (lit "WORKSHEET_NAME") with
        | Some v => strip v
        | None => lit "Gastos"
        end
  | inl message =>
      (blank environ (lit "TELEGRAM_BOT_TOKEN") /\
       message = msg_missing (lit "TELEGRAM_BOT_TOKEN")) \/
      (~ blank environ (lit "TELEGRAM_BOT_TOKEN") /\
       blank environ (lit "SHEET_ID") /\
       message = msg_missing (lit "SHEET_ID")) \/
      (~ blank environ (lit "TELEGRAM_BOT_TOKEN") /\
       ~ blank environ (lit "SHEET_ID") /\
       blank environ (lit "GOOGLE_SA_JSON_B64") /\
       message = msg_missing (lit "GOOGLE_SA_JSON_B64"))
  end.
Proof.
  unfold load_config.
  pose proof (strip_getenv_blank environ (lit "TELEGRAM_BOT_TOKEN")) as B1.
  pose proof (strip_getenv_blank environ (lit "SHEET_ID")) as B2.
  pose proof (strip_getenv_blank environ (lit "GOOGLE_SA_JSON_B64")) as B3.
  assert (G : forall k v, environ k = Some v -> getenv environ k [] = v).
  { intros k v H. unfold getenv. now rewrite H. }
  destruct (strip (getenv environ (lit "TELEGRAM_BOT_TOKEN") []))
    as [|c1 t1] eqn:E1.
  { left. split; [now apply B1 | reflexivity]. }
  assert (N1 : ~ blank environ (lit "TELEGRAM_BOT_TOKEN")).
  { intros H. apply B1 in H. discriminate H. }
  destruct (strip (getenv environ (lit "SHEET_ID") [])) as [|c2 t2] eqn:E2.
  { right. left. repeat split; [exact N1 | now apply B2]. }
  assert (N2 : ~ blank environ (lit "SHEET_ID")).
  { intros H. apply B2 in H. discriminate H. }
  destruct (strip (getenv environ (lit "GOOGLE_SA_JSON_B64") []))
    as [|c3 t3] eqn:E3.
  { right. right. repeat split; [exact N1 | exact N2 | now apply B3]. }
  assert (N3 : ~ blank environ (lit "GOOGLE_SA_JSON_B64")).
  { intros H. apply B3 in H. discriminate H. }
  cbn [TELEGRAM_BOT_TOKEN SHEET_ID GOOGLE_SA_JSON_B64 WORKSHEET_NAME].
  repeat split; try assumption.
  - intros v Hv. now rewrite <- E1, (G _ _ Hv).
  - intros v Hv. now rewrite <- E2, (G _ _ Hv).
  - intros v Hv. now rewrite <- E3, (G _ _ Hv).
  - unfold getenv. now destruct (environ (lit "WORKSHEET_NAME")).
Qed.

(** ** The theorems at concrete inputs *)

#[local] Existing Instance latin1_data.


Lemma amount_conversion_witness :
  @re_search amount_re (@normalize latin1_data (lit "32.90 padaria nubank"))
  = Some {| m_start := 0; m_end := 5 |} /\
  exists desc conta,
    @parse_expense latin1_data (lit "32.90 padaria nubank")
    = Some (float_of_decimal 3290 0, desc, conta).
Proof.
  assert (Hs : @re_search amount_re
                 (@normalize latin1_data (lit "32.90 padaria nubank"))
               = Some {| m_start := 0; m_end := 5 |})
    by (vm_compute; reflexivity).
  split; [exact Hs|].
  destruct (proj1 (@amount_conversion latin1_data) _ _ Hs)
    as (value & desc & conta & Hp & _ & Hv).
  exists desc, conta. rewrite <- Hv; [exact Hp|].
  vm_compute. reflexivity.
Defined.


Lemma parse_fails_iff_no_amount_witness :
  ~ contains_amount (@normalize latin1_data (lit "no numbers here")).
Proof.
  apply (proj1 (@parse_fails_iff_no_amount latin1_data)).
  vm_compute. reflexivity.
Defined.


Lemma text_update_sample (text : str) :
  text_update (text_message text) (JInt 42) (JInt 7) (strip text).
Proof.
  exists (JObj [(lit "message_id", JInt 7);
                (lit "chat", JObj [(lit "id", JInt 42)]);
                (lit "text", JStr text)]), JNull.
  repeat split. unfold text_of. cbn. destruct text; reflexivity.
Defined.

Lemma audio_update_sample (caption : option str) :
  audio_update (voice_message caption) (JInt 42) (JInt 8)
    (JStr (lit "AwACAgQ")).
Proof.
  eexists. repeat split.
Defined.

Lemma transcribed_sample :
  transcribed calm_world (JStr (lit "AwACAgQ"))
    (JStr (lit "voice/file_1.oga")) [79; 103; 103; 83]%N
    (lit "almo" ++ [231%N] ++ lit "o").
Proof.
  do 5 eexists. repeat split.
Defined.

Lemma dependable_calm_world : dependable calm_world.
Proof.
  repeat split; intros; try reflexivity; eexists; try split; reflexivity.
Defined.

Lemma parse_failure_reply_witness :
  snd (@webhook latin1_data calm_world (text_message (lit "oi")) [])
  = [SendMessage (reply_payload (JInt 42) msg_not_understood (JInt 7))] /\
  snd (@webhook latin1_data calm_world (voice_message None) [])
  = [GetFile (JStr (lit "AwACAgQ")); Download (JStr (lit "voice/file_1.oga"));
     Transcribe [79; 103; 103; 83]%N;
     SendMessage
       (reply_payload (JInt 42)
          (msg_transcript_not_understood (lit "almo" ++ [231%N] ++ lit "o"))
          (JInt 8))].
Proof.
  split.
  - destruct (proj1 (@parse_failure_reply latin1_data) calm_world
                (text_message (lit "oi")) (JInt 42) (JInt 7) (lit "oi") []
                (text_update_sample (lit "oi")))
      as (added & Hsnd & -> & _).
    + discriminate.
    + vm_compute. reflexivity.
    + exact Hsnd.
  - destruct (proj2 (@parse_failure_reply latin1_data) calm_world
                (voice_message None) (JInt 42) (JInt 8)
                (JStr (lit "AwACAgQ")) (JStr (lit "voice/file_1.oga"))
                [79; 103; 103; 83]%N (lit "almo" ++ [231%N] ++ lit "o") []
                (audio_update_sample None) transcribed_sample)
      as (added & Hsnd & -> & _).
    + discriminate.
    + vm_compute. reflexivity.
    + exact Hsnd.
Defined.

Lemma webhook_acknowledges_witness :
  exists tr',
    @webhook latin1_data calm_world
      (text_message (lit "500 padaria nubank")) []
    = (Return ack, tr').
Proof.
  apply (proj2 (@webhook_acknowledges latin1_data)).
  - exact dependable_calm_world.
  - vm_compute. reflexivity.
Defined.

Lemma same_but_text_sample (t : str) :
  same_but_text
    [(lit "message_id", JInt 8); (lit "chat", JObj [(lit "id", JInt 42)]);
     (lit "voice", JObj [(lit "file_id", JStr (lit "AwACAgQ"))]);
     (lit "text", JStr t)]
    [(lit "message_id", JInt 8); (lit "chat", JObj [(lit "id", JInt 42)]);
     (lit "voice", JObj [(lit "file_id", JStr (lit "AwACAgQ"))])].
Proof.
  intros k Hk. cbn [lookup].
  destruct (str_eqb k (lit "message_id")); [reflexivity|].
  destruct (str_eqb k (lit "chat")); [reflexivity|].
  destruct (str_eqb k (lit "voice")); [reflexivity|].
  unfold str_eqb. destruct (list_eq_dec N.eq_dec k (lit "text")); [|reflexivity].
  contradiction.
Defined.

Lemma attachment_precedes_text_witness :
  @webhook latin1_data calm_world
    (voice_message (Some (lit "500 padaria nubank"))) []
  = @webhook latin1_data calm_world (voice_message None) [].
Proof.
  refine (proj1 (@attachment_precedes_text latin1_data calm_world
                   (voice_message (Some (lit "500 padaria nubank")))
                   (voice_message None) _ _ [] eq_refl eq_refl
                   (same_but_text_sample (lit "500 padaria nubank")) _)).
  left. do 2 eexists. repeat split.
Defined.

Lemma add_row_appends_one_row_witness :
  snd (add_row calm_world (float_of_decimal 3290 2) (lit "mercado")
         (lit "inter") (lit "32,90 mercado inter") [])
  = [AppendRow [lit "2024-03-09 12:00:05 UTC"; lit "32.90"; lit "mercado";
                lit "inter"; lit "32,90 mercado inter"]].
Proof.
  destruct (@add_row_appends_one_row latin1_data calm_world
              (lit "32,90 mercado inter") (float_of_decimal 3290 2)
              (lit "mercado") (lit "inter") [])
    as (stamp & amount & Hsnd & -> & _ & -> & _).
  - unfold calendar. vm_compute. repeat split; discriminate.
  - vm_compute. reflexivity.
  - rewrite Hsnd. vm_compute. reflexivity.
Defined.

(** *** More theorems at concrete inputs *)

Lemma amount_is_greedy_witness :
  @re_search amount_re (lit "pao 12,345 x")
  = Some {| m_start := 4; m_end := 9 |} /\
  exists pre ds tail post,
    lit "pao 12,345 x" = pre ++ ds ++ tail ++ post /\
    length pre = 4 /\ length pre + length ds + length tail = 9 /\
    ds <> [].
Proof.
  assert (Hs : @re_search amount_re (lit "pao 12,345 x")
               = Some {| m_start := 4; m_end := 9 |})
    by (vm_compute; reflexivity).
  split; [exact Hs|].
  destruct (@amount_is_greedy latin1_data _ _ Hs)
    as (pre & ds & tail & post & Ht & Hst & Hen & _ & Hne & _).
  exists pre, ds, tail, post. cbn [m_start m_end] in Hst, Hen. auto.
Defined.

Lemma float_accepts_every_match_witness :
  @py_float latin1_data
    (replace (lit ",") (lit ".")
       (replace (lit ".") []
          (group1 (@normalize latin1_data (lit "R$ 1.234,5 feira pix"))
             {| m_start := 0; m_end := 4 |})))
  <> None.
Proof.
  apply (@float_accepts_every_match latin1_data).
  vm_compute. reflexivity.
Defined.

Lemma parsed_value_sign_witness :
  float_of_decimal 3290 2 = S754_zero false \/
  (exists m e, float_of_decimal 3290 2 = S754_finite false m e) \/
  float_of_decimal 3290 2 = S754_infinity false.
Proof.
  apply (@parsed_value_sign latin1_data (lit "32,90 mercado inter")
           (float_of_decimal 3290 2) (lit "mercado") (lit "inter")).
  vm_compute. reflexivity.
Defined.

Lemma fields_resplit_witness :
  (lit "nubank" = [] \/ token (lit "nubank")) /\
  lit "padaria da esquina" = join (lit " ") (split (lit "padaria da esquina")).
Proof.
  destruct (@fields_resplit latin1_data
              (lit "  500   padaria  da esquina   nubank ")
              (float_of_decimal 500 0) (lit "padaria da esquina")
              (lit "nubank"))
    as (m & _ & _ & Hconta & Hdesc).
  - vm_compute. reflexivity.
  - split; assumption.
Defined.

Lemma parser_lower_cases_witness :
  @parse_expense latin1_data (@lower latin1_data (lit "32,90 Mercado INTER"))
  = @parse_expense latin1_data (lit "32,90 Mercado INTER") /\
  Forall (fun c => ascii_capital c = false) (lit "mercado" ++ lit "inter").
Proof.
  destruct (@parser_lower_cases latin1_data (lit "32,90 Mercado INTER")
              eq_refl) as (Hsame & Hsmall).
  split; [exact Hsame|].
  apply (Hsmall (float_of_decimal 3290 2)). vm_compute. reflexivity.
Defined.

Lemma value_column_exact_witness :
  format_2f (float_of_decimal 3290 2) = lit "32.90".
Proof.
  apply (@value_column_exact latin1_data (lit "32,90 mercado inter")
           (float_of_decimal 3290 2) (lit "mercado") (lit "inter")
           {| m_start := 0; m_end := 5 |} 3290%N 2).
  - vm_compute. reflexivity.
  - vm_compute. reflexivity.
  - apply (@amount_comma latin1_data (lit "32") (lit "90")).
    + discriminate.
    + repeat constructor.
    + repeat constructor.
    + cbn. lia.
  - vm_compute. reflexivity.
Defined.

Lemma webhook_stops_at_first_failure_witness :
  fst (@webhook latin1_data ledger_down
         (text_message (lit "500 padaria nubank")) [])
  = Raise (CollaboratorError 503).
Proof.
  destruct (@webhook_stops_at_first_failure latin1_data ledger_down
              (text_message (lit "500 padaria nubank")) [])
    as (added & Hsnd & Hfail).
  cbn [app] in Hsnd.
  apply (Hfail [] (AppendRow [lit "2024-03-09 12:00:05 UTC"; lit "500.00";
                              lit "padaria"; lit "nubank";
                              lit "500 padaria nubank"]) []).
  - rewrite <- Hsnd. vm_compute. reflexivity.
  - reflexivity.
Defined.

Lemma ignored_updates_witness :
  @webhook latin1_data calm_world JNull [] = (Return ack, []) /\
  @webhook latin1_data calm_world
    (JObj [(lit "update_id", JInt 3); (lit "channel_post", JObj [])]) []
  = (Return ack, []) /\
  @webhook latin1_data calm_world (text_message (lit "   ")) []
  = (Return ack, []).
Proof.
  destruct (@ignored_updates latin1_data calm_world []) as (H1 & H2 & H3).
  split; [|split].
  - apply H1. reflexivity.
  - apply H2; reflexivity.
  - apply (H3 _ (JInt 42) (JInt 7)). apply (text_update_sample (lit "   ")).
Defined.


Lemma transcribed_dictation :
  transcribed dictating_world (JStr (lit "AwACAgQ"))
    (JStr (lit "voice/file_1.oga")) [79; 103; 103; 83]%N
    (lit "32,90 mercado inter.").
Proof.
  do 5 eexists. repeat split.
Defined.

Lemma audio_expense_booked_witness :
  @webhook latin1_data dictating_world (voice_message None) []
  = (Return ack,
     [GetFile (JStr (lit "AwACAgQ")); Download (JStr (lit "voice/file_1.oga"));
      Transcribe [79; 103; 103; 83]%N;
      AppendRow [lit "2024-03-09 12:00:05 UTC"; lit "32.90"; lit "mercado";
                 lit "inter."; lit "32,90 mercado inter."];
      SendMessage
        (reply_payload (JInt 42)
           (lit "Transcri" ++ [231%N; 227%N]
              ++ lit "o: `32,90 mercado inter,`" ++ [10%N]
              ++ lit "Lan" ++ [231%N] ++ lit "ado " ++ [9989%N]
              ++ lit " R$ 32,90 | mercado | inter,")
           (JInt 8))]).
Proof.
  rewrite (@audio_expense_booked latin1_data dictating_world
             (voice_message None) (JInt 42) (JInt 8) (JStr (lit "AwACAgQ"))
             (JStr (lit "voice/file_1.oga")) [79; 103; 103; 83]%N
             (lit "32,90 mercado inter.") (float_of_decimal 3290 2)
             (lit "mercado") (lit "inter.") []
             (audio_update_sample None) transcribed_dictation).
  - vm_compute. reflexivity.
  - vm_compute. reflexivity.
Defined.

Lemma transcribed_nothing :
  transcribed mute_world (JStr (lit "AwACAgQ"))
    (JStr (lit "voice/file_1.oga")) [79; 103; 103; 83]%N [].
Proof.
  do 5 eexists. repeat split.
Defined.

Lemma audio_fallbacks_witness :
  @webhook latin1_data refusing_world (voice_message None) []
  = (Return ack,
     [GetFile (JStr (lit "AwACAgQ"));
      SendMessage (reply_payload (JInt 42) msg_no_audio (JInt 8))]) /\
  @webhook latin1_data mute_world (voice_message None) []
  = (Return ack,
     [GetFile (JStr (lit "AwACAgQ")); Download (JStr (lit "voice/file_1.oga"));
      Transcribe [79; 103; 103; 83]%N;
      SendMessage (reply_payload (JInt 42) msg_empty_transcript (JInt 8))]).
Proof.
  split.
  - apply (proj1 (@audio_fallbacks latin1_data refusing_world
                    (voice_message None) (JInt 42) (JInt 8)
                    (JStr (lit "AwACAgQ")) [] (audio_update_sample None))
             (JObj [(lit "ok", JBool false)]) (JBool false));
      reflexivity.
  - apply (proj2 (@audio_fallbacks latin1_data mute_world
                    (voice_message None) (JInt 42) (JInt 8)
                    (JStr (lit "AwACAgQ")) [] (audio_update_sample None))
             (JStr (lit "voice/file_1.oga")) [79; 103; 103; 83]%N
             transcribed_nothing).
Defined.

Lemma transcript_is_trimmed_witness :
  strip (lit "32,90 mercado inter.") = lit "32,90 mercado inter." /\
  transcribe_ogg_to_text
    {| utcnow := noon;
       telegram_getFile := telegram_getFile calm_world;
       http_download := http_download calm_world;
       whisper_transcribe := fun _ => Return (JObj []);
       sheets_append_row := fun _ => Return tt;
       telegram_sendMessage := fun _ => Return tt |} [79; 103]%N []
  = (Return [], [Transcribe [79; 103]%N]).
Proof.
  split.
  - apply (proj1 (@transcript_is_trimmed dictating_world [79; 103]%N [])
             (lit "32,90 mercado inter.") [Transcribe [79; 103]%N]).
    reflexivity.
  - apply (proj2 (@transcript_is_trimmed _ [79; 103]%N []) []); reflexivity.
Defined.

Lemma digit_makes_expense_witness :
  Forall (fun c => @isdecimal latin1_data c = false) (lit "oi, tudo bem?").
Proof.
  apply (proj1 (@digit_makes_expense latin1_data (lit "oi, tudo bem?")
                  eq_refl)).
  vm_compute. reflexivity.
Defined.

(** ** Where the code leaves the claims as they were stated *)

(** C3 as stated fails on a text message: the parser fails on "oi", and
    the one reply the handler sends does not contain "oi". *)
Lemma text_reply_omits_text :
  @parse_expense latin1_data (lit "oi") = None /\
  snd (@webhook latin1_data calm_world (text_message (lit "oi")) [])
  = [SendMessage (reply_payload (JInt 42) msg_not_understood (JInt 7))] /\
  infixb (lit "oi") msg_not_understood = false /\
  ~ replied_with
      (snd (@webhook latin1_data calm_world (text_message (lit "oi")) []))
      (lit "oi") usage_example.
Proof.
  split; [vm_compute; reflexivity|].
  split; [vm_compute; reflexivity|].
  split; [vm_compute; reflexivity|].
  intros (payload & body & Hin & Hlook & Hoi & _).
  assert (E : snd (@webhook latin1_data calm_world
                     (text_message (lit "oi")) [])
              = [SendMessage (reply_payload (JInt 42) msg_not_understood
                                (JInt 7))])
    by (vm_compute; reflexivity).
  rewrite E in Hin. destruct Hin as [Hin|[]].
  injection Hin as <-. cbn in Hlook. injection Hlook as <-.
  apply infixb_complete in Hoi. vm_compute in Hoi. discriminate Hoi.
Qed.

(** C4 as stated fails when a collaborator raises: on a well-formed
    text update, with a worksheet that refuses the row, the handler
    ends in the exception and returns no acknowledgment. *)
Lemma ledger_failure_not_acknowledged :
  update_shaped (text_message (lit "500 padaria nubank")) = true /\
  @webhook latin1_data ledger_down
    (text_message (lit "500 padaria nubank")) []
  = (Raise (CollaboratorError 503),
     [AppendRow [lit "2024-03-09 12:00:05 UTC"; lit "500.00"; lit "padaria";
                 lit "nubank"; lit "500 padaria nubank"]]) /\
  fst (@webhook latin1_data ledger_down
         (text_message (lit "500 padaria nubank")) [])
  <> Return ack.
Proof.
  split; [vm_compute; reflexivity|].
  split; [vm_compute; reflexivity|].
  vm_compute. discriminate.
Qed.

(** C10 as stated fails on a message whose [voice] has no [file_id]:
    the message carries an audio with a [file_id] and a text, and the
    handler asks for no file, parses the text and books it. *)
Lemma text_booked_despite_audio :
  lookup (lit "audio") audio_behind_voice
  = Some (JObj [(lit "file_id", JStr (lit "CQACAgQ"))]) /\
  lookup (lit "text") audio_behind_voice
  = Some (JStr (lit "500 padaria nubank")) /\
  @webhook latin1_data calm_world
    (JObj [(lit "update_id", JInt 4);
           (lit "message", JObj audio_behind_voice)]) []
  = (Return ack,
     [AppendRow [lit "2024-03-09 12:00:05 UTC"; lit "500.00"; lit "padaria";
                 lit "nubank"; lit "500 padaria nubank"];
      SendMessage
        (reply_payload (JInt 42)
           (lit "Lan" ++ [231%N] ++ lit "ado " ++ [9989%N]
              ++ lit " R$ 500,00 | padaria | nubank")
           (JInt 9))]).
Proof. repeat split; vm_compute; reflexivity. Qed.
